(** * Buscador: purchaser look-up over a refreshed CSV export

    A shallow embedding of the [App] component: the state held in its
    [useState] cells, the two handlers [fetchData] and [handleSearch], and the
    filter expression both of them evaluate.  Records are JavaScript objects
    keyed by column name, modelled as finite maps from strings to strings; a
    key that is missing from the map is a property that reads as [undefined]. *)

From Stdlib Require Import Ascii NArith.
From stdpp Require Import base list strings gmap pretty.

(** ** JavaScript strings

    A string is a sequence of code units.  The model covers the strings whose
    code units are below 256, one [ascii] per code unit, on which
    [toLowerCase] and [trim] are closed and are given exactly here. *)

Module JsString.

(** [String.prototype.toLowerCase] on one code unit: A-Z, and the Latin-1
    capitals U+00C0..U+00DE except the multiplication sign U+00D7, move up
    by 32; every other code unit below 256 is its own lower case. *)
Definition lowerUnit (c : ascii) : ascii :=
  let n := N_of_ascii c in
  if ((65 <=? n) && (n <=? 90)
      || (192 <=? n) && (n <=? 222) && negb (n =? 215))%N
  then ascii_of_N (n + 32)
  else c.

Fixpoint toLowerCase (s : string) : string :=
  match s with
  | "" => ""
  | String c s' => String (lowerUnit c) (toLowerCase s')
  end.

(** WhiteSpace and LineTerminator code units below 256: TAB, LF, VT, FF, CR,
    SP and NBSP. *)
Definition isWhite (c : ascii) : bool :=
  let n := N_of_ascii c in
  ((9 <=? n) && (n <=? 13) || (n =? 32) || (n =? 160))%N.

Fixpoint trimStart (s : string) : string :=
  match s with
  | "" => ""
  | String c s' => if isWhite c then trimStart s' else s
  end.

Fixpoint trimEnd (s : string) : string :=
  match s with
  | "" => ""
  | String c s' =>
      match trimEnd s' with
      | "" => if isWhite c then "" else String c ""
      | t => String c t
      end
  end.

(** [String.prototype.trim]. *)
Definition trim (s : string) : string := trimEnd (trimStart s).

(** [s.startsWith(p)]. *)
Fixpoint startsWith (s p : string) {struct p} : bool :=
  match p, s with
  | "", _ => true
  | String _ _, "" => false
  | String a p', String b s' => bool_decide (a = b) && startsWith s' p'
  end.

(** [s.includes(p)]: some position of [s] starts an occurrence of [p]. *)
Fixpoint includes (s p : string) : bool :=
  startsWith s p ||
  match s with
  | "" => false
  | String _ s' => includes s' p
  end.

(** Truthiness of a string: only the empty string is falsy. *)
Definition truthy (s : string) : bool :=
  match s with "" => false | String _ _ => true end.

End JsString.

Import JsString.

(** ** Records and the filter *)

(** A parsed row: an object from column names to cell texts. *)
Abbreviation Transaction := (gmap string string).

Definition EMAIL_COMPRADOR : string := "E-mail Comprador".
Definition NOME_COMPRADOR : string := "Nome Comprador".

(** The callback handed to [filter]:
    [item => item["E-mail Comprador"]?.toLowerCase().includes(term)].
    On a missing property the optional chain yields [undefined], which
    [filter] takes as false. *)
Definition matchesTerm (term : string) (item : Transaction) : bool :=
  match item !! EMAIL_COMPRADOR with
  | None => false
  | Some v => includes (toLowerCase v) term
  end.

(** The query both handlers run:
    [const term = searchTerm.toLowerCase().trim();]
    [data.filter(item => ...includes(term))]. *)
Definition normalize (searchTerm : string) : string :=
  trim (toLowerCase searchTerm).

Definition search (data : list Transaction) (searchTerm : string)
  : list Transaction :=
  List.filter (matchesTerm (normalize searchTerm)) data.

(** The reading of "contains as a contiguous substring": the needle sits
    between some prefix and some suffix of the haystack. *)
Definition substringOf (needle hay : string) : Prop :=
  ∃ pre post, hay = pre +:+ needle +:+ post.

(** The matching predicate in the specification's words: the purchaser e-mail
    is present and, lower-cased, contains the trimmed and lower-cased term. *)
Definition specMatches (rawTerm : string) (item : Transaction) : Prop :=
  ∃ v, item !! EMAIL_COMPRADOR = Some v
       ∧ substringOf (toLowerCase (trim rawTerm)) (toLowerCase v).

(** ** Scenario data

    The data set of the look-up scenario: header
    [Nome Comprador;E-mail Comprador] with the rows [Ana;ana@x.com] and
    [Bia;bia@x.com], as the header-mode parse delivers it. *)
Definition rowAna : Transaction :=
  <[EMAIL_COMPRADOR := "ana@x.com"]> {[NOME_COMPRADOR := "Ana"]}.
Definition rowBia : Transaction :=
  <[EMAIL_COMPRADOR := "bia@x.com"]> {[NOME_COMPRADOR := "Bia"]}.
Definition scenarioData : list Transaction := [rowAna; rowBia].

(** Two purchases by the same e-mail under different names and documents. *)
Definition rowAnaFirst : Transaction :=
  <["Documento" := "111"]> rowAna.
Definition rowAnaSecond : Transaction :=
  <["Documento" := "222"]>
    (<[EMAIL_COMPRADOR := "ana@x.com"]> {[NOME_COMPRADOR := "Ana Maria"]}).

(** ** The component state *)

(** [new Date()], in milliseconds since the epoch. *)
Abbreviation Date := N.

(** The seven [useState] cells of [App]. *)
Record State : Type := mkState {
  data : list Transaction;
  searchTerm : string;
  searchResults : list Transaction;
  loading : bool;
  error : option string;
  hasSearched : bool;
  lastUpdated : option Date
}.

(** The first render: [useState([])], [useState('')], [useState([])],
    [useState(true)], [useState(null)], [useState(false)], [useState(null)]. *)
Definition initialState : State :=
  {| data := []; searchTerm := ""; searchResults := []; loading := true;
     error := None; hasSearched := false; lastUpdated := None |}.

Definition setData (v : list Transaction) (s : State) : State :=
  mkState v (searchTerm s) (searchResults s) (loading s) (error s)
          (hasSearched s) (lastUpdated s).
Definition setSearchTerm (v : string) (s : State) : State :=
  mkState (data s) v (searchResults s) (loading s) (error s)
          (hasSearched s) (lastUpdated s).
Definition setSearchResults (v : list Transaction) (s : State) : State :=
  mkState (data s) (searchTerm s) v (loading s) (error s)
          (hasSearched s) (lastUpdated s).
Definition setLoading (v : bool) (s : State) : State :=
  mkState (data s) (searchTerm s) (searchResults s) v (error s)
          (hasSearched s) (lastUpdated s).
Definition setError (v : option string) (s : State) : State :=
  mkState (data s) (searchTerm s) (searchResults s) (loading s) v
          (hasSearched s) (lastUpdated s).
Definition setHasSearched (v : bool) (s : State) : State :=
  mkState (data s) (searchTerm s) (searchResults s) (loading s) (error s)
          v (lastUpdated s).
Definition setLastUpdated (v : option Date) (s : State) : State :=
  mkState (data s) (searchTerm s) (searchResults s) (loading s) (error s)
          (hasSearched s) v.

(** The two calls the properties below speak about, as a handler makes them:
    the filter run with a normalized term, and the data set being replaced. *)
Inductive Call : Type :=
  | CallFilter (term : string)
  | CallSetData (rows : list Transaction).

(** A handler runs to completion on the state of the render that created it
    and leaves the next state, together with the calls it made. *)
Definition Handler : Type := State → State * list Call.

(** ** [handleSearch] *)

Definition handleSearch : Handler := λ s,
  if negb (truthy (trim (searchTerm s))) then (s, [])
  else
    let s1 := setHasSearched true s in
    let term := normalize (searchTerm s) in
    let results := List.filter (matchesTerm term) (data s) in
    (setSearchResults results s1, [CallFilter term]).

(** ** [fetchData] *)

(** What a [catch] clause can receive. *)
Inductive Thrown : Type :=
  | ThrownError (message : string)
  | ThrownOther.

(** How one call of [fetchData] ends, as decided by its collaborators: the
    proxy behind [fetch] and the CSV parser. *)
Inductive Outcome : Type :=
  | Rejected (e : Thrown)
      (** [fetch], [response.text()] or the parser threw *)
  | NotOk (status : N) (statusText : string)
      (** [response.ok] is false *)
  | ParseComplete (rows : list Transaction) (now : Date)
      (** the parser called [complete] with [results.data = rows] *)
  | ParseFailed (message : string).
      (** the parser called [error] *)

(** The part of [fetchData] before its first [await]. *)
Definition fetchData_begin (s : State) : State :=
  setError None (setLoading true s).

(** The [catch] clause. *)
Definition catchMessage (e : Thrown) : string :=
  match e with
  | ThrownError message => message +:+ "."
  | ThrownOther => "An unknown error occurred"
  end.

Definition fetchData_catch (e : Thrown) (s : State) : State :=
  setLoading false (setError (Some (catchMessage e)) s).

(** The [complete] callback.  [searchTerm] is the variable of the render
    whose [fetchData] was called, not a cell that is read again. *)
Definition fetchData_complete (searchTerm : string)
    (rows : list Transaction) (now : Date) : Handler := λ s,
  let s1 := setData rows s in
  let s2 := setLastUpdated (Some now) s1 in
  let s3 := setLoading false s2 in
  if truthy (trim searchTerm) then
    let term := normalize searchTerm in
    let newResults := List.filter (matchesTerm term) rows in
    (setSearchResults newResults s3, [CallSetData rows; CallFilter term])
  else (s3, [CallSetData rows]).

(** The [error] callback. *)
Definition fetchData_error (message : string) (s : State) : State :=
  setLoading false (setError (Some ("CSV Parsing Error: " +:+ message)) s).

(** The rest of [fetchData], from the first [await] on. *)
Definition fetchData_settle (searchTerm : string) (o : Outcome) : Handler :=
  λ s,
  match o with
  | Rejected e => (fetchData_catch e s, [])
  | NotOk status statusText =>
      let message := "Failed to fetch CSV file: " +:+ pretty status
                     +:+ " " +:+ statusText in
      (fetchData_catch (ThrownError message) s, [])
  | ParseComplete rows now => fetchData_complete searchTerm rows now s
  | ParseFailed message => (fetchData_error message s, [])
  end.

Definition isFailure (o : Outcome) : bool :=
  match o with ParseComplete _ _ => false | _ => true end.

(** ** The running component *)

(** The state cells, the [fetchData] calls that have begun and not settled
    (each with the [searchTerm] of the render it was created in), and the
    calls made so far. *)
Record Runtime : Type := mkRuntime {
  ui : State;
  pending : list string;
  log : list Call
}.

Inductive Event : Type :=
  | Typed (value : string)
      (** [onChange] of the input: [setSearchTerm(e.target.value)] *)
  | SubmitForm
      (** the form's submit button, [disabled={loading || !searchTerm.trim()}] *)
  | ClickRefresh
      (** the refresh button, [disabled={loading}] *)
  | Settled (o : Outcome).
      (** the oldest pending [fetchData] call runs to its end *)

(** A call of [fetchData]: its synchronous part runs, the rest waits for the
    response, holding the [searchTerm] of the current render. *)
Definition callFetchData (rt : Runtime) : Runtime :=
  {| ui := fetchData_begin (ui rt);
     pending := pending rt ++ [searchTerm (ui rt)];
     log := log rt |}.

Definition runHandler (h : Handler) (rt : Runtime) : Runtime :=
  {| ui := (h (ui rt)).1; pending := pending rt;
     log := log rt ++ (h (ui rt)).2 |}.

(** One event.  A disabled button passes no click on; a response needs a
    pending call.  The browser's own validation of the e-mail input is left
    out, so every term that is not blank may be submitted. *)
Definition step (rt : Runtime) (e : Event) : Runtime :=
  match e with
  | Typed value =>
      {| ui := setSearchTerm value (ui rt); pending := pending rt;
         log := log rt |}
  | SubmitForm =>
      if loading (ui rt) || negb (truthy (trim (searchTerm (ui rt))))
      then rt
      else runHandler handleSearch rt
  | ClickRefresh =>
      if loading (ui rt) then rt else callFetchData rt
  | Settled o =>
      match pending rt with
      | [] => rt
      | captured :: rest =>
          {| ui := (fetchData_settle captured o (ui rt)).1;
             pending := rest;
             log := log rt ++ (fetchData_settle captured o (ui rt)).2 |}
      end
  end.

Definition run (rt : Runtime) (tr : list Event) : Runtime := foldl step rt tr.

(** After the first render the effect [useEffect(() => fetchData(), [])] has
    called [fetchData]. *)
Definition mounted : Runtime :=
  callFetchData {| ui := initialState; pending := []; log := [] |}.

(** How many times the data set was replaced. *)
Definition replacements (calls : list Call) : nat :=
  length (List.filter (λ c, match c with CallSetData _ => true | _ => false end)
                      calls).

Definition isClickRefresh (e : Event) : bool :=
  match e with ClickRefresh => true | _ => false end.

(** At most one [fetchData] call is pending, exactly while [loading] holds,
    and no error is shown then. *)
Definition singleFlight (rt : Runtime) : Prop :=
  (loading (ui rt) = true ∧ error (ui rt) = None ∧ ∃ t, pending rt = [t])
  ∨ (loading (ui rt) = false ∧ pending rt = []).

(** Every term the filter was run with is non-empty. *)
Definition filterTermsNonEmpty (calls : list Call) : Prop :=
  Forall (λ c, match c with CallFilter term => term ≠ "" | _ => True end)
         calls.

(** The first fetch has delivered the rows of Ana and Bia. *)
Definition scenarioLoaded : Runtime :=
  run mounted [Settled (ParseComplete scenarioData 1)].

(** On that data the user has typed "ana@x.com" and submitted the form. *)
Definition scenarioSearching : Runtime :=
  run scenarioLoaded [Typed "ana@x.com"; SubmitForm].

(** ** The parser contract *)

Module Csv.

Definition LF : ascii := "010"%char.
Definition CR : ascii := "013"%char.
Definition SEMI : ascii := ";"%char.

(** [s.split(d)] for a one-unit separator: the cells between the
    separators, at least one. *)
Fixpoint splitOn (d : ascii) (s : string) : list string :=
  match s with
  | "" => [""]
  | String c s' =>
      if bool_decide (c = d) then "" :: splitOn d s'
      else match splitOn d s' with
           | [] => [String c ""]
           | cell :: cells => String c cell :: cells
           end
  end.

(** [l.join(sep)]. *)
Fixpoint joinWith (sep : string) (l : list string) : string :=
  match l with
  | [] => ""
  | x :: l' =>
      match l' with
      | [] => x
      | _ :: _ => x +:+ sep +:+ joinWith sep l'
      end
  end.

(** Does the code unit occur in the text? *)
Fixpoint hasUnit (d : ascii) (s : string) : bool :=
  match s with
  | "" => false
  | String c s' => bool_decide (c = d) || hasUnit d s'
  end.

(** Modelled from the spec: line endings of the parser's input (section 6,
    "CRLF or LF line endings tolerated").  A line that ends in CR loses
    it. *)
Fixpoint stripCR (s : string) : string :=
  match s with
  | "" => ""
  | String c s' =>
      match s' with
      | "" => if bool_decide (c = CR) then "" else s
      | String _ _ => String c (stripCR s')
      end
  end.

Definition lines (payload : string) : list string :=
  stripCR <$> splitOn LF payload.

(** Modelled from the spec: how the parser, whose code is outside the
    repository, builds the record of one data row under a header (section
    4.1).  The fields are assigned left to right,
    each from the cell in its column; a field whose column has no cell gets
    the empty string, cells beyond the last field are dropped. *)
Fixpoint rowRecord (fields cells : list string) (acc : Transaction)
  : Transaction :=
  match fields with
  | [] => acc
  | f :: fields' =>
      rowRecord fields' (tail cells) (<[f := default "" (head cells)]> acc)
  end.

(** Modelled from the spec: the parser, which the component calls as
    [Papa.parse(csv, {header: true, delimiter: ';', skipEmptyLines: true})]
    and whose code is a dependency outside the repository.  Section 4.1:
    the first line holds the field names, the lines after it the data;
    empty lines are skipped; LF and CRLF line endings are both accepted;
    extra cells are dropped and missing cells default to the empty string.
    The payload is text that is already decoded, so no parse error
    arises. *)
Definition parse (payload : string) : list Transaction :=
  match List.filter truthy (lines payload) with
  | [] => []
  | headerLine :: dataLines =>
      let fields := splitOn SEMI headerLine in
      (λ line, rowRecord fields (splitOn SEMI line) ∅) <$> dataLines
  end.

Inductive Eol : Type := EolLF | EolCRLF.

Definition eolText (eol : Eol) : string :=
  match eol with
  | EolLF => String LF ""
  | EolCRLF => String CR (String LF "")
  end.

(** The text of one row: the record's values in header order. *)
Definition rowText (fields : list string) (r : Transaction) : string :=
  joinWith (String SEMI "") ((λ f, default "" (r !! f)) <$> fields).

Definition rowTexts (fields : list string) (records : list Transaction)
  : list string :=
  joinWith (String SEMI "") fields :: (rowText fields <$> records).

(** Modelled from the spec: the serializer of the round-trip property in
    section 8, of which the repository has no code: [;]-delimited text, a
    header row with the field names, then one row per record. *)
Definition serialize (eol : Eol) (fields : list string)
    (records : list Transaction) : string :=
  joinWith (eolText eol) (rowTexts fields records).

(** No field or line delimiter in the text. *)
Definition delimiterFree (s : string) : bool :=
  negb (hasUnit SEMI s || hasUnit LF s || hasUnit CR s).

(** Well-formed records: each has exactly the header's fields. *)
Definition wellFormed (fields : list string) (records : list Transaction)
  : bool :=
  forallb (λ r : Transaction,
             bool_decide (dom r = (list_to_set fields : gset string)))
          records.

(** Field names and values hold no delimiter. *)
Definition noDelimiters (fields : list string) (records : list Transaction)
  : bool :=
  forallb delimiterFree fields
  && forallb (λ r : Transaction,
                forallb (λ f, delimiterFree (default "" (r !! f))) fields)
             records.

(** No row of the text, the header row included, is the empty line. *)
Definition noEmptyRow (fields : list string) (records : list Transaction)
  : bool :=
  forallb truthy (rowTexts fields records).

(** No line delimiter in the text of a row. *)
Definition lineClean (line : string) : bool :=
  negb (hasUnit LF line || hasUnit CR line).

End Csv.

Import Csv.

(** ** What is rendered *)

(** The column "Código Referência", code unit by code unit (U+00F3,
    U+00EA). *)
Definition CODIGO_REFERENCIA : string :=
  "C" +:+ String "243"%char ("digo Refer" +:+ String "234"%char "ncia").

(** [value || "N/A"] on a property that may be missing. *)
Definition orNA (value : option string) : string :=
  match value with
  | Some v => if truthy v then v else "N/A"
  | None => "N/A"
  end.

(** One result card: the reference code, the purchaser's name, and the
    e-mail line, which renders nothing for [undefined]. *)
Record Card : Type := mkCard {
  cardReference : string;
  cardName : string;
  cardEmail : option string
}.

Definition renderCard (result : Transaction) : Card :=
  {| cardReference := orNA (result !! CODIGO_REFERENCIA);
     cardName := orNA (result !! NOME_COMPRADOR);
     cardEmail := result !! EMAIL_COMPRADOR |}.

(** The block under [AnimatePresence]: nothing before the first search, then
    the counted cards, or the "Nenhum resultado encontrado" notice, which
    quotes the current [searchTerm]. *)
Inductive Panel : Type :=
  | PanelHidden
  | PanelResults (count : nat) (cards : list Card)
  | PanelNoResults (term : string).

Definition renderPanel (s : State) : Panel :=
  if hasSearched s then
    if 0 <? length (searchResults s)
    then PanelResults (length (searchResults s))
                      (renderCard <$> searchResults s)
    else PanelNoResults (searchTerm s)
  else PanelHidden.

(** [{error && (...)}]: the red banner and its text. *)
Definition renderError (s : State) : option string :=
  match error s with
  | Some e => if truthy e then Some e else None
  | None => None
  end.

(** The refresh button: [disabled={loading}] and its label. *)
Definition refreshDisabled (s : State) : bool := loading s.
Definition refreshLabel (s : State) : string :=
  if loading s then "Atualizando..." else "Atualizar agora".

(** The submit button: [disabled={loading || !searchTerm.trim()}]. *)
Definition submitDisabled (s : State) : bool :=
  loading s || negb (truthy (trim (searchTerm s))).

(** ** Observations on a run *)

(** The rows of the latest [setData] call, if there was one. *)
Definition lastSetData (calls : list Call) : option (list Transaction) :=
  foldl (λ acc c, match c with CallSetData rows => Some rows | _ => acc end)
        None calls.

(** The purchaser e-mail is present and not empty. *)
Definition hasEmail (item : Transaction) : Prop :=
  ∃ v, item !! EMAIL_COMPRADOR = Some v ∧ v ≠ "".

Definition isSettled (e : Event) : bool :=
  match e with Settled _ => true | _ => false end.

(** A string that does not start with white space. *)
Definition headNonWhite (s : string) : bool :=
  match s with "" => true | String c _ => negb (isWhite c) end.

(** ** The probe script [check_csv.ts] *)

Module CheckCsv.

(** The literal the pattern [/raysant29@gmail\.com/g] matches. *)
Definition ADDRESS : string := "raysant29@gmail.com".

(** [(text.match(pattern) || []).length] for a global pattern that is a
    non-empty literal: the scan goes left to right, and after a match it
    resumes behind the match; [skip] counts the code units of the last match
    still to be passed. *)
Fixpoint matchCount (needle : string) (skip : nat) (text : string) : nat :=
  match text with
  | "" => 0
  | String _ text' =>
      match skip with
      | S skip' => matchCount needle skip' text'
      | O =>
          if startsWith text needle
          then S (matchCount needle (String.length needle - 1) text')
          else matchCount needle 0 text'
      end
  end.

(** What [check] writes to the console: the two counts, or the error when the
    request fails. *)
Inductive Report : Type :=
  | Counts (totalLength matches : nat)
  | Failed.

Definition check (response : option string) : Report :=
  match response with
  | Some text => Counts (String.length text) (matchCount ADDRESS 0 text)
  | None => Failed
  end.

End CheckCsv.

(** ** Facts about the string model *)

Section StringFacts.

Lemma lowerUnit_isWhite c : isWhite (lowerUnit c) = isWhite c.
Proof. by destruct c as [[] [] [] [] [] [] [] []]. Qed.

Lemma toLowerCase_trimStart s :
  trimStart (toLowerCase s) = toLowerCase (trimStart s).
Proof.
  induction s as [|c s IH]; [done|].
  cbn [toLowerCase trimStart]. rewrite lowerUnit_isWhite.
  by destruct (isWhite c).
Qed.

Lemma toLowerCase_trimEnd s :
  trimEnd (toLowerCase s) = toLowerCase (trimEnd s).
Proof.
  induction s as [|c s IH]; [done|].
  cbn [toLowerCase trimEnd]. rewrite IH, lowerUnit_isWhite.
  destruct (trimEnd s); cbn [toLowerCase]; [|done].
  by destruct (isWhite c).
Qed.

(** Lower-casing and trimming commute, so the order the code applies them
    in does not matter. *)
Lemma toLowerCase_trim s : trim (toLowerCase s) = toLowerCase (trim s).
Proof.
  unfold trim. by rewrite toLowerCase_trimStart, toLowerCase_trimEnd.
Qed.

Lemma toLowerCase_empty s : toLowerCase s = "" ↔ s = "".
Proof. by destruct s. Qed.

Lemma normalize_empty s : normalize s = "" ↔ trim s = "".
Proof. unfold normalize. by rewrite toLowerCase_trim, toLowerCase_empty. Qed.

Lemma truthy_spec s : truthy s = true ↔ s ≠ "".
Proof. by destruct s. Qed.

Lemma startsWith_spec s p : startsWith s p = true ↔ ∃ post, s = p +:+ post.
Proof.
  revert s. induction p as [|a p IH]; intros s.
  - split; [intros _; by exists s|done].
  - destruct s as [|b s]; cbn [startsWith].
    + split; [done|]. by intros [post ?].
    + rewrite andb_true_iff, bool_decide_eq_true, IH. split.
      * intros [-> [post ->]]. by exists post.
      * intros [post Heq]. injection Heq as -> ->. eauto.
Qed.

Lemma includes_spec s p : includes s p = true ↔ substringOf p s.
Proof.
  unfold substringOf. induction s as [|b s IH]; cbn [includes].
  - rewrite orb_false_r, startsWith_spec. split.
    + intros [post ?]. by exists "", post.
    + intros [[|??] [post Heq]]; [by exists post|done].
  - rewrite orb_true_iff, startsWith_spec, IH. split.
    + intros [[post ?]|(pre & post & ->)]; [by exists "", post|].
      by exists (String b pre), post.
    + intros [[|c pre] [post Heq]]; [left; by exists post|].
      injection Heq as -> ->. right; eauto.
Qed.

Lemma includes_empty_hay p : p ≠ "" → includes "" p = false.
Proof. by destruct p. Qed.

End StringFacts.

Section SearchFacts.
Implicit Types (data : list Transaction) (item : Transaction).
Implicit Types (term rawTerm : string).

Lemma elem_of_search data rawTerm item :
  item ∈ search data rawTerm
  ↔ item ∈ data ∧ matchesTerm (normalize rawTerm) item = true.
Proof.
  unfold search. rewrite !list_elem_of_In, List.filter_In. done.
Qed.

Lemma matchesTerm_spec rawTerm item :
  matchesTerm (normalize rawTerm) item = true ↔ specMatches rawTerm item.
Proof.
  unfold matchesTerm, specMatches, normalize. rewrite toLowerCase_trim.
  destruct (item !! EMAIL_COMPRADOR) as [v|].
  - rewrite includes_spec. split; [by exists v|].
    by intros (? & [= <-] & ?).
  - split; [done|]. by intros (? & ? & ?).
Qed.

Lemma matchesTerm_blank term item :
  term ≠ "" →
  item !! EMAIL_COMPRADOR = None ∨ item !! EMAIL_COMPRADOR = Some "" →
  matchesTerm term item = false.
Proof.
  unfold matchesTerm. intros Hne [-> | ->]; [done|].
  by apply includes_empty_hay.
Qed.

Lemma search_cons data rawTerm item :
  search (item :: data) rawTerm =
    if matchesTerm (normalize rawTerm) item
    then item :: search data rawTerm
    else search data rawTerm.
Proof. done. Qed.

Lemma search_app data1 data2 rawTerm :
  search (data1 ++ data2) rawTerm
  = search data1 rawTerm ++ search data2 rawTerm.
Proof. apply List.filter_app. Qed.

Lemma search_sublist data rawTerm : sublist (search data rawTerm) data.
Proof.
  induction data as [|item data IH]; [constructor|].
  rewrite search_cons. destruct (matchesTerm _ item); by constructor.
Qed.

Lemma search_search data rawTerm :
  search (search data rawTerm) rawTerm = search data rawTerm.
Proof.
  induction data as [|item data IH]; [done|].
  rewrite search_cons.
  destruct (matchesTerm _ item) eqn:Hm; [|done].
  by rewrite search_cons, Hm, IH.
Qed.

Lemma search_count data rawTerm item :
  matchesTerm (normalize rawTerm) item = true →
  count_occ (λ x y : Transaction, decide (x = y)) (search data rawTerm) item
  = count_occ (λ x y : Transaction, decide (x = y)) data item.
Proof.
  intros Hm. induction data as [|x data IH]; [done|].
  rewrite search_cons. cbn [count_occ].
  destruct (decide (x = item)) as [->|Hne].
  - rewrite Hm. cbn [count_occ]. rewrite decide_True by done. by f_equal.
  - destruct (matchesTerm _ x); [|done].
    cbn [count_occ]. by rewrite decide_False.
Qed.

End SearchFacts.

(** ** Facts about the handlers *)

Section HandlerFacts.
Implicit Types (s : State) (rt : Runtime) (o : Outcome) (tr : list Event).

Lemma handleSearch_blank s :
  trim (searchTerm s) = "" → handleSearch s = (s, []).
Proof. unfold handleSearch. by intros ->. Qed.

Lemma handleSearch_results s :
  trim (searchTerm s) ≠ "" →
  handleSearch s
  = (setSearchResults (search (data s) (searchTerm s)) (setHasSearched true s),
     [CallFilter (normalize (searchTerm s))]).
Proof.
  intros Hne%truthy_spec. unfold handleSearch. by rewrite Hne.
Qed.

Lemma handleSearch_shown s :
  searchResults (handleSearch s).1
  = if truthy (trim (searchTerm s)) then search (data s) (searchTerm s)
    else searchResults s.
Proof. unfold handleSearch. by destruct (truthy _). Qed.

Lemma settle_failure_data captured o s :
  isFailure o = true →
  data (fetchData_settle captured o s).1 = data s
  ∧ searchTerm (fetchData_settle captured o s).1 = searchTerm s
  ∧ searchResults (fetchData_settle captured o s).1 = searchResults s
  ∧ (fetchData_settle captured o s).2 = [].
Proof. by destruct o. Qed.

Lemma step_failure_data rt o :
  isFailure o = true →
  data (ui (step rt (Settled o))) = data (ui rt)
  ∧ searchTerm (ui (step rt (Settled o))) = searchTerm (ui rt)
  ∧ searchResults (ui (step rt (Settled o))) = searchResults (ui rt).
Proof.
  intros Hf. cbn [step]. destruct (pending rt) as [|t rest]; [done|].
  cbn [ui]. by destruct (settle_failure_data t o (ui rt) Hf) as (?&?&?&_).
Qed.

Lemma step_refresh_data rt :
  data (ui (step rt ClickRefresh)) = data (ui rt)
  ∧ searchTerm (ui (step rt ClickRefresh)) = searchTerm (ui rt)
  ∧ searchResults (ui (step rt ClickRefresh)) = searchResults (ui rt).
Proof. cbn [step]. by destruct (loading (ui rt)). Qed.

Lemma run_app rt tr1 tr2 : run rt (tr1 ++ tr2) = run (run rt tr1) tr2.
Proof. apply foldl_app. Qed.

Lemma run_snoc rt tr e : run rt (tr ++ [e]) = step (run rt tr) e.
Proof. by rewrite run_app. Qed.

(** *** One call in flight *)

Lemma singleFlight_mounted : singleFlight mounted.
Proof. left. split_and!; [done..|]. by exists "". Qed.

Lemma singleFlight_step rt e : singleFlight rt → singleFlight (step rt e).
Proof.
  intros [(Hl & He & t & Hp) | (Hl & Hp)].
  - destruct e as [v| | |o]; cbn [step].
    + left. split_and!; [done..|]. by exists t.
    + rewrite Hl. left. split_and!; [done..|]. by exists t.
    + rewrite Hl. left. split_and!; [done..|]. by exists t.
    + rewrite Hp. right. cbn [ui pending]. split; [|done].
      destruct o as [e|st stt|rows now|msg]; cbn; [done..| |done].
      unfold fetchData_complete. by destruct (truthy (trim t)).
  - destruct e as [v| | |o]; cbn [step].
    + by right.
    + rewrite Hl. destruct (negb _); cbn [orb]; [by right|].
      right. split; [|done]. cbn. unfold handleSearch.
      by destruct (negb _).
    + rewrite Hl. left. cbn. rewrite Hp. split_and!; [done..|]. eauto.
    + rewrite Hp. by right.
Qed.

Lemma singleFlight_run rt tr : singleFlight rt → singleFlight (run rt tr).
Proof.
  revert rt. induction tr as [|e tr IH]; intros rt Hg; [done|].
  apply IH. by apply singleFlight_step.
Qed.

Lemma singleFlight_loading_pending rt :
  singleFlight rt → (loading (ui rt) = true ↔ pending rt ≠ []).
Proof.
  intros [(Hl & _ & t & Hp) | (Hl & Hp)]; rewrite Hl, Hp; split; done.
Qed.

Lemma singleFlight_pending_length rt :
  singleFlight rt → length (pending rt) ≤ 1.
Proof. intros [(_ & _ & t & ->) | (_ & ->)]; cbn; lia. Qed.

(** A click on the disabled button changes nothing at all. *)
Lemma step_refresh_loading rt :
  loading (ui rt) = true → step rt ClickRefresh = rt.
Proof. cbn [step]. by intros ->. Qed.

(** *** Counting replacements *)

Lemma replacements_app calls1 calls2 :
  replacements (calls1 ++ calls2)
  = replacements calls1 + replacements calls2.
Proof. unfold replacements. by rewrite List.filter_app, length_app. Qed.

Lemma settle_replacements captured o s :
  replacements (fetchData_settle captured o s).2 ≤ 1.
Proof.
  destruct o; cbn; try lia. unfold fetchData_complete.
  destruct (truthy _); cbn; lia.
Qed.

Lemma handleSearch_replacements s : replacements (handleSearch s).2 = 0.
Proof. unfold handleSearch. by destruct (negb _). Qed.

(** Without a further accepted request, each replacement uses up one
    pending call. *)
Lemma run_replacements rt tr :
  forallb (λ e, negb (isClickRefresh e)) tr = true →
  replacements (log (run rt tr)) + length (pending (run rt tr))
  ≤ replacements (log rt) + length (pending rt).
Proof.
  revert rt. induction tr as [|e tr IH]; intros rt Hno; [done|].
  cbn [forallb] in Hno. apply andb_true_iff in Hno as [He Hno].
  etrans; [apply (IH (step rt e) Hno)|].
  destruct e as [v| | |o]; cbn [step]; [done| |done|].
  - destruct (_ || _); [done|]. cbn [runHandler log pending].
    rewrite replacements_app, handleSearch_replacements. lia.
  - destruct (pending rt) as [|t rest] eqn:Hp; [by rewrite Hp|].
    cbn [log pending length]. rewrite replacements_app.
    pose proof (settle_replacements t o (ui rt)). lia.
Qed.

(** *** The terms handed to the filter *)

Lemma normalize_nonempty t : truthy (trim t) = true → normalize t ≠ "".
Proof. rewrite truthy_spec, normalize_empty. done. Qed.

Lemma handleSearch_filterTerms s : filterTermsNonEmpty (handleSearch s).2.
Proof.
  unfold handleSearch, filterTermsNonEmpty.
  destruct (truthy _) eqn:Ht; cbn [negb snd]; [|constructor].
  repeat constructor. by apply normalize_nonempty.
Qed.

Lemma settle_filterTerms captured o s :
  filterTermsNonEmpty (fetchData_settle captured o s).2.
Proof.
  unfold filterTermsNonEmpty.
  destruct o; cbn; [constructor..| |constructor].
  unfold fetchData_complete. destruct (truthy _) eqn:Ht; cbn [snd].
  - repeat constructor. by apply normalize_nonempty.
  - by repeat constructor.
Qed.

Lemma step_filterTerms rt e :
  filterTermsNonEmpty (log rt) → filterTermsNonEmpty (log (step rt e)).
Proof.
  unfold filterTermsNonEmpty. intros Hlog.
  destruct e as [v| | |o]; cbn [step]; [done| | |].
  - destruct (_ || _); [done|]. cbn [runHandler log].
    apply Forall_app. split; [done|apply handleSearch_filterTerms].
  - by destruct (loading _).
  - destruct (pending rt); [done|]. cbn [log].
    apply Forall_app. split; [done|apply settle_filterTerms].
Qed.

Lemma run_filterTerms rt tr :
  filterTermsNonEmpty (log rt) → filterTermsNonEmpty (log (run rt tr)).
Proof.
  revert rt. induction tr as [|e tr IH]; intros rt Hlog; [done|].
  apply IH. by apply step_filterTerms.
Qed.

End HandlerFacts.

Section RunFacts.
Implicit Types (s : State) (rt : Runtime) (tr : list Event).

(** Typing only ever changes [searchTerm]. *)
Lemma run_typed rt (typed : list string) :
  let rt' := run rt (Typed <$> typed) in
  data (ui rt') = data (ui rt)
  ∧ searchResults (ui rt') = searchResults (ui rt)
  ∧ loading (ui rt') = loading (ui rt)
  ∧ error (ui rt') = error (ui rt)
  ∧ lastUpdated (ui rt') = lastUpdated (ui rt)
  ∧ hasSearched (ui rt') = hasSearched (ui rt)
  ∧ pending rt' = pending rt
  ∧ log rt' = log rt.
Proof.
  revert rt. induction typed as [|v typed IH]; intros rt; [done|].
  cbn zeta in *. rewrite fmap_cons. change (run rt (?e :: ?l)) with (run (step rt e) l).
  by destruct (IH (step rt (Typed v))) as (-> & -> & -> & -> & -> & -> & -> & ->).
Qed.

Lemma complete_fields captured rows now s :
  let s' := (fetchData_complete captured rows now s).1 in
  data s' = rows
  ∧ lastUpdated s' = Some now
  ∧ loading s' = false
  ∧ error s' = error s
  ∧ searchResults s'
    = if truthy (trim captured) then search rows captured
      else searchResults s.
Proof. cbn zeta. unfold fetchData_complete. by destruct (truthy _). Qed.

End RunFacts.

(** ** Facts about the parser contract *)

Section CsvFacts.
Implicit Types (s x rest sep line : string) (d c : ascii).
Implicit Types (l xs ls fields cells : list string).
Implicit Types (r acc : Transaction) (records : list Transaction).

Lemma app_cons c s rest : String c s +:+ rest = String c (s +:+ rest).
Proof. done. Qed.

Lemma app_snoc s c rest : s +:+ String c rest = (s +:+ String c "") +:+ rest.
Proof.
  induction s as [|c' s IH]; [done|]. rewrite !app_cons. by f_equal.
Qed.

Lemma hasUnit_app d s rest :
  hasUnit d (s +:+ rest) = hasUnit d s || hasUnit d rest.
Proof.
  induction s as [|c s IH]; [done|].
  rewrite app_cons. cbn [hasUnit]. by rewrite IH, orb_assoc.
Qed.

Lemma splitOn_clean d x : hasUnit d x = false → splitOn d x = [x].
Proof.
  induction x as [|c x IH]; [done|]. cbn [hasUnit splitOn].
  intros [Hc Hx]%orb_false_iff. by rewrite Hc, (IH Hx).
Qed.

Lemma splitOn_app d x rest :
  hasUnit d x = false →
  splitOn d (x +:+ String d rest) = x :: splitOn d rest.
Proof.
  induction x as [|c x IH].
  - intros _. change ("" +:+ String d rest) with (String d rest).
    cbn [splitOn]. by rewrite bool_decide_eq_true_2.
  - cbn [hasUnit]. intros [Hc Hx]%orb_false_iff.
    rewrite app_cons. cbn [splitOn]. by rewrite Hc, (IH Hx).
Qed.

Lemma joinWith_cons sep x y l :
  joinWith sep (x :: y :: l) = x +:+ sep +:+ joinWith sep (y :: l).
Proof. done. Qed.

Lemma splitOn_join d xs :
  xs ≠ [] →
  forallb (λ x, negb (hasUnit d x)) xs = true →
  splitOn d (joinWith (String d "") xs) = xs.
Proof.
  induction xs as [|x [|y l] IH]; [done| |]; intros _ Hall.
  - cbn in Hall. apply splitOn_clean.
    by destruct (hasUnit d x).
  - cbn [forallb] in Hall. apply andb_true_iff in Hall as [Hx Hall].
    rewrite joinWith_cons.
    change (String d "" +:+ ?t) with (String d t).
    rewrite splitOn_app by by destruct (hasUnit d x).
    f_equal. by apply IH.
Qed.

Lemma hasUnit_join d sep xs :
  hasUnit d sep = false →
  forallb (λ x, negb (hasUnit d x)) xs = true →
  hasUnit d (joinWith sep xs) = false.
Proof.
  intros Hsep. induction xs as [|x [|y l] IH]; [done| |]; intros Hall.
  - cbn in *. by destruct (hasUnit d x).
  - cbn [forallb] in Hall. apply andb_true_iff in Hall as [Hx Hall].
    rewrite joinWith_cons, !hasUnit_app, Hsep, (IH Hall).
    by destruct (hasUnit d x).
Qed.

Lemma stripCR_cons c c' x :
  stripCR (String c (String c' x)) = String c (stripCR (String c' x)).
Proof. done. Qed.

Lemma stripCR_clean x : hasUnit CR x = false → stripCR x = x.
Proof.
  induction x as [|c x IH]; [done|]. cbn [hasUnit].
  intros [Hc Hx]%orb_false_iff. destruct x as [|c' x].
  - cbn. by rewrite Hc.
  - by rewrite stripCR_cons, (IH Hx).
Qed.

Lemma stripCR_snoc x : stripCR (x +:+ String CR "") = x.
Proof.
  induction x as [|c x IH]; [done|]. destruct x as [|c' x]; [done|].
  rewrite !app_cons, stripCR_cons. rewrite app_cons in IH. by rewrite IH.
Qed.

Lemma lines_join eol ls :
  ls ≠ [] →
  forallb lineClean ls = true →
  lines (joinWith (eolText eol) ls) = ls.
Proof.
  unfold lines, lineClean.
  induction ls as [|x [|y l] IH]; [done| |]; intros _ Hall.
  - cbn in Hall. rewrite andb_true_r, negb_true_iff in Hall.
    apply orb_false_iff in Hall as [Hlf Hcr].
    change (joinWith (eolText eol) [x]) with x.
    by rewrite (splitOn_clean LF x Hlf), list_fmap_singleton, stripCR_clean.
  - cbn [forallb] in Hall. apply andb_true_iff in Hall as [Hx Hall].
    rewrite negb_true_iff in Hx. apply orb_false_iff in Hx as [Hlf Hcr].
    rewrite joinWith_cons. destruct eol; cbn [eolText].
    + change (String LF "" +:+ ?t) with (String LF t).
      rewrite (splitOn_app LF x _ Hlf), fmap_cons, (stripCR_clean x Hcr).
      f_equal. by apply IH.
    + change (String CR (String LF "") +:+ ?t) with (String CR (String LF t)).
      rewrite (app_snoc x CR).
      rewrite splitOn_app by by rewrite hasUnit_app, Hlf.
      rewrite fmap_cons, stripCR_snoc. f_equal. by apply IH.
Qed.

Lemma filter_all {A} (p : A → bool) (l : list A) :
  forallb p l = true → List.filter p l = l.
Proof.
  induction l as [|a l IH]; [done|]. cbn.
  intros [-> Hl]%andb_true_iff. by rewrite (IH Hl).
Qed.

(** *** Building a record from a row *)

Lemma rowRecord_notin fields cells acc f :
  f ∉ fields → rowRecord fields cells acc !! f = acc !! f.
Proof.
  revert cells acc. induction fields as [|f0 fields IH]; intros cells acc Hf.
  - done.
  - apply not_elem_of_cons in Hf as [Hne Hf]. cbn [rowRecord].
    rewrite (IH _ _ Hf). by rewrite lookup_insert_ne.
Qed.

Lemma rowRecord_missing fields cells acc i f :
  fields !! i = Some f →
  length cells ≤ i →
  rowRecord fields cells acc !! f = Some "".
Proof.
  revert cells acc i.
  induction fields as [|f0 fields IH]; intros cells acc i Hi Hlen; [done|].
  cbn [rowRecord]. destruct i as [|j].
  - injection Hi as ->. destruct cells as [|? ?]; [|cbn in Hlen; lia].
    destruct (decide (f ∈ fields)) as [Hin|Hnot].
    + apply list_elem_of_lookup in Hin as [j Hj].
      apply (IH _ _ j Hj). cbn. lia.
    + rewrite (rowRecord_notin _ _ _ _ Hnot). apply lookup_insert_eq.
  - apply (IH _ _ j Hi). destruct cells; cbn in *; lia.
Qed.

Lemma rowRecord_values (g : string → string) fields acc f :
  rowRecord fields (g <$> fields) acc !! f
  = if decide (f ∈ fields) then Some (g f) else acc !! f.
Proof.
  revert acc. induction fields as [|f0 fields IH]; intros acc; [done|].
  rewrite fmap_cons. cbn [rowRecord tail head default]. rewrite IH.
  destruct (decide (f ∈ fields)) as [Hin|Hnot].
  - rewrite decide_True; [done|by right].
  - destruct (decide (f = f0)) as [->|Hne].
    + rewrite decide_True by left. cbn. apply lookup_insert_eq.
    + rewrite decide_False.
      * by rewrite lookup_insert_ne.
      * by intros [?|?]%elem_of_cons.
Qed.

Lemma rowRecord_own fields r :
  dom r = (list_to_set fields : gset string) →
  rowRecord fields ((λ f, default "" (r !! f)) <$> fields) ∅ = r.
Proof.
  intros Hdom. apply map_eq. intros f. rewrite rowRecord_values.
  destruct (decide (f ∈ fields)) as [Hin|Hnot].
  - assert (f ∈ dom r) as [v Hv]%elem_of_dom
      by (rewrite Hdom; by apply elem_of_list_to_set).
    by rewrite Hv.
  - rewrite lookup_empty. symmetry. apply not_elem_of_dom.
    rewrite Hdom. by rewrite elem_of_list_to_set.
Qed.

End CsvFacts.

Section RoundTripFacts.
Implicit Types (fields : list string) (records : list Transaction).

Lemma forallb_impl {A} (p q : A → bool) (l : list A) :
  (∀ a, p a = true → q a = true) → forallb p l = true → forallb q l = true.
Proof.
  intros Hpq. induction l as [|a l IH]; [done|]. cbn.
  intros [Ha Hl]%andb_true_iff. by rewrite (Hpq a Ha), (IH Hl).
Qed.

Lemma forallb_fmap {A B} (p : B → bool) (f : A → B) (l : list A) :
  forallb p (f <$> l) = forallb (λ a, p (f a)) l.
Proof. induction l as [|a l IH]; [done|]. cbn. by rewrite IH. Qed.

Lemma delimiterFree_units (w : string) :
  delimiterFree w = true →
  hasUnit SEMI w = false ∧ hasUnit LF w = false ∧ hasUnit CR w = false.
Proof.
  unfold delimiterFree.
  by destruct (hasUnit SEMI w), (hasUnit LF w), (hasUnit CR w).
Qed.

(** A row of delimiter-free cells is one clean line. *)
Lemma row_lineClean (cells : list string) :
  forallb delimiterFree cells = true →
  lineClean (joinWith (String SEMI "") cells) = true.
Proof.
  intros Hall. unfold lineClean.
  rewrite !hasUnit_join; [done|done| |done|].
  - eapply forallb_impl; [|exact Hall].
    intros w (_ & _ & ->)%delimiterFree_units. done.
  - eapply forallb_impl; [|exact Hall].
    intros w (_ & -> & _)%delimiterFree_units. done.
Qed.

Lemma row_cells (cells : list string) :
  cells ≠ [] →
  forallb delimiterFree cells = true →
  splitOn SEMI (joinWith (String SEMI "") cells) = cells.
Proof.
  intros Hne Hall. apply splitOn_join; [done|].
  eapply forallb_impl; [|exact Hall].
  intros w (-> & _ & _)%delimiterFree_units. done.
Qed.

Lemma rowTexts_lineClean fields records :
  noDelimiters fields records = true →
  forallb lineClean (rowTexts fields records) = true.
Proof.
  unfold noDelimiters, rowTexts. intros [Hf Hr]%andb_true_iff.
  cbn [forallb]. rewrite (row_lineClean fields Hf), andb_true_l.
  rewrite forallb_fmap. eapply forallb_impl; [|exact Hr].
  intros r Hcells. apply row_lineClean. by rewrite forallb_fmap.
Qed.

Lemma noEmptyRow_fields fields records :
  noEmptyRow fields records = true → fields ≠ [].
Proof. by intros Hrows ->. Qed.

(** With two or more columns every row holds a separator, so none is
    empty: the case of the 24-column export. *)
Lemma noEmptyRow_two_columns fields records :
  2 ≤ length fields → noEmptyRow fields records = true.
Proof.
  destruct fields as [|f1 [|f2 fields]]; cbn [length]; [lia..|]. intros _.
  assert (∀ cells : list string,
            2 ≤ length cells → truthy (joinWith (String SEMI "") cells) = true)
    as Hrow.
  { intros [|x [|y cells]]; cbn [length]; [lia..|]. intros _.
    rewrite joinWith_cons. by destruct x. }
  unfold noEmptyRow, rowTexts. cbn [forallb].
  rewrite Hrow by (cbn; lia). rewrite forallb_fmap.
  apply forallb_forall. intros r _. apply Hrow.
  rewrite length_fmap. cbn. lia.
Qed.

End RoundTripFacts.

(** ** Examples *)

Example parse_scenario :
  parse (serialize EolCRLF [NOME_COMPRADOR; EMAIL_COMPRADOR] scenarioData)
  = scenarioData
  ∧ parse (joinWith (String LF "")
             ["Nome Comprador;E-mail Comprador"; "Ana;ana@x.com"; "";
              "Bia;bia@x.com"; ""])
    = scenarioData.
Proof. split; reflexivity. Qed.

Example parse_short_row :
  parse (joinWith (String LF "") ["Documento;Status;Parcela"; "111"; "1;2;3;4"])
  = [ {[ "Documento" := "111"; "Status" := ""; "Parcela" := "" ]};
      {[ "Documento" := "1"; "Status" := "2"; "Parcela" := "3" ]} ].
Proof. reflexivity. Qed.

(** ** The query: properties *)

(** C2. For every data set and raw term, the search returns exactly the
    records whose "E-mail Comprador", lower-cased, contains the trimmed and
    lower-cased term as a contiguous substring; a record where that field is
    absent or empty is never returned for a term that is not blank; and in the
    Ana/Bia scenario the search for "ANA@X.COM" returns the one record whose
    "Nome Comprador" is "Ana". *)
Theorem search_returns_exactly_the_matches
    (data : list Transaction) (rawTerm : string) :
  (∀ item, item ∈ search data rawTerm ↔ item ∈ data ∧ specMatches rawTerm item)
  ∧ (∀ item,
       toLowerCase (trim rawTerm) ≠ "" →
       item !! EMAIL_COMPRADOR = None ∨ item !! EMAIL_COMPRADOR = Some "" →
       item ∉ search data rawTerm)
  ∧ search scenarioData "ANA@X.COM" = [rowAna]
  ∧ rowAna !! NOME_COMPRADOR = Some "Ana".
Proof.
  split_and!.
  - intros item. by rewrite elem_of_search, matchesTerm_spec.
  - intros item Hne Hblank [_ Hm]%elem_of_search.
    rewrite matchesTerm_blank in Hm; [done| |done].
    unfold normalize. by rewrite toLowerCase_trim.
  - reflexivity.
  - reflexivity.
Qed.

(** C6. The search is a function of the data set and the term, searching its
    own result again changes nothing, the result is a subsequence of the data
    set in row order, and every matching record is kept as many times as it
    occurs (no de-duplication). *)
Theorem search_deterministic_and_stable
    (data : list Transaction) (rawTerm : string) :
  (∀ data' rawTerm',
     data' = data → rawTerm' = rawTerm →
     search data' rawTerm' = search data rawTerm)
  ∧ search (search data rawTerm) rawTerm = search data rawTerm
  ∧ sublist (search data rawTerm) data
  ∧ (∀ item,
       matchesTerm (normalize rawTerm) item = true →
       count_occ (λ x y : Transaction, decide (x = y)) (search data rawTerm) item
       = count_occ (λ x y : Transaction, decide (x = y)) data item)
  ∧ (∀ more, search (data ++ more) rawTerm
             = search data rawTerm ++ search more rawTerm).
Proof.
  split_and!.
  - by intros ?? -> ->.
  - apply search_search.
  - apply search_sublist.
  - intros item. apply search_count.
  - intros more. apply search_app.
Qed.

(** C9. Two records that agree on "E-mail Comprador" get the same match
    decision for every term, whatever their other fields hold: in any data set
    that has both, the search returns both or neither. *)
Theorem match_depends_on_email_only (item1 item2 : Transaction) :
  item1 !! EMAIL_COMPRADOR = item2 !! EMAIL_COMPRADOR →
  (∀ term, matchesTerm term item1 = matchesTerm term item2)
  ∧ (∀ data rawTerm,
       item1 ∈ data → item2 ∈ data →
       (item1 ∈ search data rawTerm ↔ item2 ∈ search data rawTerm)).
Proof.
  intros Heq.
  assert (∀ term, matchesTerm term item1 = matchesTerm term item2) as Hm.
  { intros term. unfold matchesTerm. by rewrite Heq. }
  split; [done|]. intros data rawTerm H1 H2.
  rewrite !elem_of_search, Hm. tauto.
Qed.

Lemma match_depends_on_email_only_witness :
  rowAnaFirst ≠ rowAnaSecond
  ∧ rowAnaFirst !! EMAIL_COMPRADOR = rowAnaSecond !! EMAIL_COMPRADOR
  ∧ ((∀ term, matchesTerm term rowAnaFirst = matchesTerm term rowAnaSecond)
     ∧ (∀ data rawTerm,
          rowAnaFirst ∈ data → rowAnaSecond ∈ data →
          (rowAnaFirst ∈ search data rawTerm
           ↔ rowAnaSecond ∈ search data rawTerm))).
Proof.
  split; [|split; [reflexivity|]].
  - intros Heq. apply (f_equal (lookup NOME_COMPRADOR)) in Heq.
    vm_compute in Heq. discriminate Heq.
  - apply (match_depends_on_email_only rowAnaFirst rowAnaSecond).
    reflexivity.
Defined.

(** ** The refresh controller *)

(** C1. A refresh requested while [loading] is true is rejected and does no
    work: the click leaves the running component as it is.  Of two
    back-to-back requests the second therefore changes nothing, one
    [fetchData] call at most is pending after them, and as long as no further
    request is made the data set is replaced at most once. *)
Theorem refresh_while_loading_is_rejected (rt : Runtime) (tr : list Event) :
  singleFlight rt →
  forallb (λ e, negb (isClickRefresh e)) tr = true →
  (loading (ui rt) = true → step rt ClickRefresh = rt)
  ∧ step (step rt ClickRefresh) ClickRefresh = step rt ClickRefresh
  ∧ length (pending (run rt [ClickRefresh; ClickRefresh])) ≤ 1
  ∧ replacements (log (run rt (ClickRefresh :: ClickRefresh :: tr)))
    ≤ replacements (log rt) + 1.
Proof.
  intros Hg Hno.
  assert (step (step rt ClickRefresh) ClickRefresh = step rt ClickRefresh)
    as Hsecond.
  { apply step_refresh_loading. cbn [step].
    by destruct (loading (ui rt)) eqn:Hl. }
  pose proof (singleFlight_pending_length _
                (singleFlight_step rt ClickRefresh Hg)) as Hlen.
  split_and!.
  - apply step_refresh_loading.
  - done.
  - change (run rt [ClickRefresh; ClickRefresh])
      with (step (step rt ClickRefresh) ClickRefresh).
    by rewrite Hsecond.
  - change (run rt (ClickRefresh :: ClickRefresh :: tr))
      with (run (step (step rt ClickRefresh) ClickRefresh) tr).
    rewrite Hsecond.
    pose proof (run_replacements (step rt ClickRefresh) tr Hno) as Hrun.
    assert (log (step rt ClickRefresh) = log rt) as Hlog.
    { cbn [step]. by destruct (loading (ui rt)). }
    rewrite Hlog in Hrun. lia.
Qed.

(** The first fetch is still in flight; two clicks follow, then the rows
    arrive and the user types. *)
Lemma refresh_while_loading_is_rejected_witness :
  (loading (ui mounted) = true → step mounted ClickRefresh = mounted)
  ∧ step (step mounted ClickRefresh) ClickRefresh = step mounted ClickRefresh
  ∧ length (pending (run mounted [ClickRefresh; ClickRefresh])) ≤ 1
  ∧ replacements
      (log (run mounted
              (ClickRefresh :: ClickRefresh ::
               [Settled (ParseComplete scenarioData 1); Typed "ana";
                Settled (ParseComplete [] 2)])))
    ≤ replacements (log mounted) + 1.
Proof.
  apply (refresh_while_loading_is_rejected mounted
           [Settled (ParseComplete scenarioData 1); Typed "ana";
            Settled (ParseComplete [] 2)]).
  - apply singleFlight_mounted.
  - reflexivity.
Defined.

(** C4. A refresh that fails, on a response that is not ok, a rejected
    request or a parse error, leaves the loaded data set as it was: a search
    for any term returns after the failed refresh what it returned before. *)
Theorem failed_refresh_keeps_dataset
    (rt : Runtime) (o : Outcome) (term : string) :
  isFailure o = true →
  let rt' := run rt [ClickRefresh; Settled o] in
  data (ui rt') = data (ui rt)
  ∧ data (ui (step rt (Settled o))) = data (ui rt)
  ∧ search (data (ui rt')) term = search (data (ui rt)) term
  ∧ searchResults (handleSearch (setSearchTerm term (ui rt'))).1
    = searchResults (handleSearch (setSearchTerm term (ui rt))).1.
Proof.
  intros Hf rt'.
  assert (data (ui rt') = data (ui rt) ∧
          searchResults (ui rt') = searchResults (ui rt)) as [Hd Hr].
  { subst rt'. change (run rt [ClickRefresh; Settled o])
      with (step (step rt ClickRefresh) (Settled o)).
    destruct (step_failure_data (step rt ClickRefresh) o Hf) as (-> & _ & ->).
    by destruct (step_refresh_data rt) as (-> & _ & ->). }
  split_and!.
  - done.
  - by destruct (step_failure_data rt o Hf) as (-> & _).
  - by rewrite Hd.
  - rewrite !handleSearch_shown. cbn [searchTerm data searchResults setSearchTerm].
    by rewrite Hd, Hr.
Qed.

(** The scenario: Ana and Bia are loaded, the next refresh is answered with
    HTTP 500. *)
Lemma failed_refresh_keeps_dataset_witness :
  let rt' :=
    run scenarioLoaded [ClickRefresh; Settled (NotOk 500 "Internal Server Error")] in
  (data (ui rt') = data (ui scenarioLoaded)
   ∧ data (ui (step scenarioLoaded (Settled (NotOk 500 "Internal Server Error"))))
     = data (ui scenarioLoaded)
   ∧ search (data (ui rt')) "ANA@X.COM"
     = search (data (ui scenarioLoaded)) "ANA@X.COM"
   ∧ searchResults (handleSearch (setSearchTerm "ANA@X.COM" (ui rt'))).1
     = searchResults
         (handleSearch (setSearchTerm "ANA@X.COM" (ui scenarioLoaded))).1)
  ∧ error (ui rt')
    = Some "Failed to fetch CSV file: 500 Internal Server Error."
  ∧ searchResults (handleSearch (setSearchTerm "ANA@X.COM" (ui rt'))).1
    = [rowAna].
Proof.
  split; [|split; reflexivity].
  apply (failed_refresh_keeps_dataset scenarioLoaded
           (NotOk 500 "Internal Server Error") "ANA@X.COM").
  reflexivity.
Defined.

(** X15. What a successful refresh does.  The stored data set becomes the
    newly parsed rows, the capture timestamp becomes the time of completion
    and [loading] ends.  The re-run is decided by, and made with, the term the
    [complete] callback holds: the one in the input at the moment the refresh
    was requested, whatever has been typed since. *)
Theorem successful_refresh_replaces_and_reruns
    (rt : Runtime) (typed : list string) (rows : list Transaction) (now : Date) :
  loading (ui rt) = false →
  pending rt = [] →
  let active := searchTerm (ui rt) in
  let rt' :=
    run rt (ClickRefresh :: (Typed <$> typed)
            ++ [Settled (ParseComplete rows now)]) in
  data (ui rt') = rows
  ∧ lastUpdated (ui rt') = Some now
  ∧ loading (ui rt') = false
  ∧ (trim active ≠ "" → searchResults (ui rt') = search rows active)
  ∧ (trim active = "" → searchResults (ui rt') = searchResults (ui rt)).
Proof.
  intros Hl Hp active rt'.
  set (rt1 := step rt ClickRefresh).
  set (rt2 := run rt1 (Typed <$> typed)).
  assert (rt' = step rt2 (Settled (ParseComplete rows now))) as ->.
  { subst rt' rt2 rt1.
    change (run rt (ClickRefresh :: ?l)) with (run (step rt ClickRefresh) l).
    apply run_snoc. }
  assert (pending rt1 = [active] ∧ searchResults (ui rt1) = searchResults (ui rt))
    as [Hp1 Hr1].
  { subst rt1. cbn [step]. rewrite Hl. cbn. by rewrite Hp. }
  destruct (run_typed rt1 typed) as (_ & Hr2 & _ & _ & _ & _ & Hp2 & _).
  fold rt2 in Hr2, Hp2. rewrite Hp1 in Hp2. rewrite Hr1 in Hr2.
  cbn [step]. rewrite Hp2. cbn [ui fetchData_settle].
  destruct (complete_fields active rows now (ui rt2)) as (-> & -> & -> & _ & ->).
  rewrite Hr2. split_and!; [done..| |].
  - intros Hne%truthy_spec. by rewrite Hne.
  - intros Hempty. by rewrite Hempty.
Qed.

(** "ana@x.com" is the submitted term; the refresh brings a second purchase
    of Ana while the user goes on typing: the re-run is for "ana@x.com". *)
Lemma successful_refresh_replaces_and_reruns_witness :
  let rt' :=
    run scenarioSearching
        (ClickRefresh :: (Typed <$> ["ana@x.co"; "bia@x.com"])
         ++ [Settled (ParseComplete [rowAnaFirst; rowBia; rowAnaSecond] 7)]) in
  (loading (ui scenarioSearching) = false ∧ pending scenarioSearching = []
   ∧ trim (searchTerm (ui scenarioSearching)) ≠ "")
  ∧ (data (ui rt') = [rowAnaFirst; rowBia; rowAnaSecond]
     ∧ lastUpdated (ui rt') = Some 7%N
     ∧ loading (ui rt') = false
     ∧ (trim (searchTerm (ui scenarioSearching)) ≠ "" →
        searchResults (ui rt')
        = search [rowAnaFirst; rowBia; rowAnaSecond]
                 (searchTerm (ui scenarioSearching)))
     ∧ (trim (searchTerm (ui scenarioSearching)) = "" →
        searchResults (ui rt') = searchResults (ui scenarioSearching)))
  ∧ searchResults (ui rt') = [rowAnaFirst; rowAnaSecond].
Proof.
  split; [|split].
  - split; [reflexivity|split; [reflexivity|]].
    vm_compute. discriminate.
  - apply (successful_refresh_replaces_and_reruns scenarioSearching
             ["ana@x.co"; "bia@x.com"] [rowAnaFirst; rowBia; rowAnaSecond] 7);
      reflexivity.
  - reflexivity.
Defined.

(** C5, at the failing inputs.  The input is not disabled while a fetch is
    in flight.  First run: the refresh is requested with an empty input and
    "bia@x.com" is typed before the rows arrive; on completion the current
    term is not blank and the new data set has a match for it, yet no search
    is run and the displayed result stays empty.  Second run: "ana@x.com" was
    searched, the refresh is requested, and the input is changed to
    "bia@x.com" before the rows arrive; the displayed result is replaced by
    the matches of the old term, not of the current one. *)
Lemma refresh_rerun_uses_stale_term :
  let typedLate :=
    run scenarioLoaded
        [ClickRefresh; Typed "bia@x.com"; Settled (ParseComplete [rowBia] 7)] in
  let changedLate :=
    run scenarioSearching
        [ClickRefresh; Typed "bia@x.com";
         Settled (ParseComplete [rowAna; rowBia] 7)] in
  (searchTerm (ui typedLate) = "bia@x.com"
   ∧ truthy (trim (searchTerm (ui typedLate))) = true
   ∧ data (ui typedLate) = [rowBia]
   ∧ lastUpdated (ui typedLate) = Some 7%N
   ∧ search (data (ui typedLate)) (searchTerm (ui typedLate)) = [rowBia]
   ∧ searchResults (ui typedLate) = []
   ∧ log typedLate = log scenarioLoaded ++ [CallSetData [rowBia]])
  ∧ (searchTerm (ui changedLate) = "bia@x.com"
     ∧ data (ui changedLate) = [rowAna; rowBia]
     ∧ search (data (ui changedLate)) (searchTerm (ui changedLate)) = [rowBia]
     ∧ searchResults (ui changedLate) = [rowAna]
     ∧ renderPanel (ui changedLate)
       = PanelResults 1 [ {| cardReference := "N/A"; cardName := "Ana";
                             cardEmail := Some "ana@x.com" |} ]).
Proof. cbv zeta. split_and!; reflexivity. Qed.

(** C7. The filter is never run with an empty normalized term.  A
    submission whose term trims to the empty string returns at once: no
    filter call, no change to the state, so none to the displayed result.
    The re-run after a refresh is skipped the same way when the term the
    refresh holds trims to empty.  And in every run of the component from its
    mount, all terms handed to the filter are non-empty. *)
Theorem empty_term_never_reaches_filter
    (s : State) (captured : string) (rows : list Transaction) (now : Date)
    (tr : list Event) :
  (trim (searchTerm s) = "" → handleSearch s = (s, []))
  ∧ (trim captured = "" →
     searchResults (fetchData_complete captured rows now s).1 = searchResults s
     ∧ (fetchData_complete captured rows now s).2 = [CallSetData rows])
  ∧ filterTermsNonEmpty (handleSearch s).2
  ∧ filterTermsNonEmpty (fetchData_complete captured rows now s).2
  ∧ filterTermsNonEmpty (log (run mounted tr)).
Proof.
  split_and!.
  - apply handleSearch_blank.
  - intros Hempty. unfold fetchData_complete. by rewrite Hempty.
  - apply handleSearch_filterTerms.
  - apply (settle_filterTerms captured (ParseComplete rows now) s).
  - apply run_filterTerms. constructor.
Qed.

(** C10. Every call of [fetchData] sets the error to null before it
    fetches.  Hence in every run of the component no error is shown while a
    call is in flight, and none is shown after a call that succeeded. *)
Theorem refresh_clears_error
    (s : State) (rt : Runtime) (tr : list Event)
    (rows : list Transaction) (now : Date) :
  error (fetchData_begin s) = None
  ∧ error (ui (callFetchData rt)) = None
  ∧ (loading (ui rt) = false → error (ui (step rt ClickRefresh)) = None)
  ∧ (loading (ui (run mounted tr)) = true → error (ui (run mounted tr)) = None)
  ∧ (pending (run mounted tr) ≠ [] →
     error (ui (step (run mounted tr) (Settled (ParseComplete rows now))))
     = None).
Proof.
  pose proof (singleFlight_run mounted tr singleFlight_mounted) as Hg.
  split_and!; [done..| | |].
  - cbn [step]. by intros ->.
  - intros Hl. destruct Hg as [(_ & He & _) | (Hl' & _)]; [done|congruence].
  - intros Hp. destruct Hg as [(_ & He & t & Ht) | (_ & Hnil)]; [|done].
    cbn [step]. rewrite Ht. cbn [ui fetchData_settle].
    by destruct (complete_fields t rows now (ui (run mounted tr)))
      as (_ & _ & _ & -> & _).
Qed.

(** A failed first fetch followed by a retry that succeeds: the message of
    the failed cycle is shown until the retry starts, and never after. *)
Example retry_clears_error :
  let failed := run mounted [Settled (NotOk 500 "Internal Server Error")] in
  let retrying := step failed ClickRefresh in
  let retried := step retrying (Settled (ParseComplete scenarioData 9)) in
  error (ui failed) = Some "Failed to fetch CSV file: 500 Internal Server Error."
  ∧ error (ui retrying) = None
  ∧ error (ui retried) = None
  ∧ data (ui retried) = scenarioData.
Proof. cbv zeta. split_and!; reflexivity. Qed.

(** ** The parser contract: properties *)

(** C3. In every payload, a data row with fewer cells than the header still
    yields a record, in the position of its row, in which every header field
    that has no cell in that row is mapped to the empty string (it is present,
    not absent); the parse of the payload returns a record for every data
    row. *)
Theorem short_row_defaults_to_empty
    (payload headerLine line : string) (dataLines : list string) (k : nat) :
  List.filter truthy (lines payload) = headerLine :: dataLines →
  dataLines !! k = Some line →
  length (splitOn SEMI line) < length (splitOn SEMI headerLine) →
  length (parse payload) = length dataLines
  ∧ ∃ r, parse payload !! k = Some r
       ∧ ∀ i f, splitOn SEMI headerLine !! i = Some f →
                length (splitOn SEMI line) ≤ i →
                r !! f = Some "".
Proof.
  intros Hlines Hk _. unfold parse. rewrite Hlines. split.
  - by rewrite length_fmap.
  - eexists. split.
    + rewrite list_lookup_fmap, Hk. done.
    + intros i f Hi Hlen. by apply (rowRecord_missing _ _ _ i).
Qed.

Lemma short_row_defaults_to_empty_witness :
  let payload :=
    joinWith (String LF "") ["Documento;Status;Parcela"; "111"; "1;2;3;4"] in
  length (parse payload) = 2
  ∧ ∃ r, parse payload !! 0 = Some r
       ∧ ∀ i f, splitOn SEMI "Documento;Status;Parcela" !! i = Some f →
                length (splitOn SEMI "111") ≤ i →
                r !! f = Some "".
Proof.
  apply (short_row_defaults_to_empty
           (joinWith (String LF "")
                     ["Documento;Status;Parcela"; "111"; "1;2;3;4"])
           "Documento;Status;Parcela" "111" ["111"; "1;2;3;4"] 0).
  - reflexivity.
  - reflexivity.
  - vm_compute. lia.
Defined.

(** C8, as amended.  For records that each have exactly the header's fields,
    with no delimiter in any field name or value, and such that no row of the
    text is the empty line, serializing with a header row, with either line
    ending, and parsing the text gives back the records. *)
Theorem parse_serialize_roundtrip
    (eol : Eol) (fields : list string) (records : list Transaction) :
  wellFormed fields records = true →
  noDelimiters fields records = true →
  noEmptyRow fields records = true →
  parse (serialize eol fields records) = records.
Proof.
  intros Hwf Hnd Hrows.
  pose proof (noEmptyRow_fields _ _ Hrows) as Hfields.
  unfold parse, serialize.
  rewrite lines_join; [|done|by apply rowTexts_lineClean].
  rewrite filter_all by exact Hrows. unfold rowTexts at 1.
  apply andb_true_iff in Hnd as [Hf Hr].
  rewrite (row_cells fields Hfields Hf).
  unfold wellFormed in Hwf. clear Hrows.
  induction records as [|r records IH]; [done|].
  cbn [forallb] in Hwf, Hr.
  apply andb_true_iff in Hwf as [Hdom Hwf].
  apply andb_true_iff in Hr as [Hcells Hr].
  rewrite !fmap_cons, (IH Hwf Hr). f_equal.
  unfold rowText. rewrite row_cells.
  - apply rowRecord_own. by apply bool_decide_eq_true in Hdom.
  - by destruct fields.
  - by rewrite forallb_fmap.
Qed.

Lemma parse_serialize_roundtrip_witness :
  parse (serialize EolCRLF [NOME_COMPRADOR; EMAIL_COMPRADOR] scenarioData)
  = scenarioData
  ∧ parse (serialize EolLF ["Status"] [ {["Status" := "Paga"]}; {["Status" := "x"]} ])
    = [ {["Status" := "Paga"]}; {["Status" := "x"]} ].
Proof.
  split.
  - apply (parse_serialize_roundtrip EolCRLF [NOME_COMPRADOR; EMAIL_COMPRADOR]
             scenarioData); reflexivity.
  - apply (parse_serialize_roundtrip EolLF ["Status"]
             [ {["Status" := "Paga"]}; {["Status" := "x"]} ]); reflexivity.
Defined.

(** C8 as stated fails: a one-column record with an empty value is
    well-formed and free of delimiters, its row is an empty line, the parser
    skips it, and the record is lost. *)
Lemma roundtrip_loses_empty_row :
  wellFormed ["Status"] [ {["Status" := ""]} ] = true
  ∧ noDelimiters ["Status"] [ {["Status" := ""]} ] = true
  ∧ serialize EolLF ["Status"] [ {["Status" := ""]} ]
    = String "S" (String "t" (String "a" (String "t" (String "u"
        (String "s" (String LF ""))))))
  ∧ parse (serialize EolLF ["Status"] [ {["Status" := ""]} ]) = []
  ∧ parse (serialize EolLF ["Status"] [ {["Status" := ""]} ])
    ≠ [ {["Status" := ""]} ].
Proof. split_and!; [reflexivity..|]. discriminate. Qed.

(** ** More on strings and the query *)

Section NormalFormFacts.
Implicit Types (s t needle hay : string) (c : ascii).
Implicit Types (data : list Transaction) (item : Transaction).

Lemma lowerUnit_idem c : lowerUnit (lowerUnit c) = lowerUnit c.
Proof. by destruct c as [[] [] [] [] [] [] [] []]. Qed.

Lemma toLowerCase_idem s : toLowerCase (toLowerCase s) = toLowerCase s.
Proof.
  induction s as [|c s IH]; [done|].
  cbn [toLowerCase]. by rewrite lowerUnit_idem, IH.
Qed.

Lemma trimStart_head s : headNonWhite (trimStart s) = true.
Proof.
  induction s as [|c s IH]; [done|]. cbn [trimStart].
  destruct (isWhite c) eqn:Hc; [done|]. cbn. by rewrite Hc.
Qed.

Lemma trimStart_id s : headNonWhite s = true → trimStart s = s.
Proof.
  destruct s as [|c s]; [done|]. cbn.
  by intros ->%negb_true_iff.
Qed.

Lemma trimEnd_head s : headNonWhite s = true → headNonWhite (trimEnd s) = true.
Proof.
  destruct s as [|c s]; [done|]. cbn [headNonWhite trimEnd].
  intros Hc. destruct (trimEnd s); [|done].
  apply negb_true_iff in Hc. by rewrite Hc; cbn; rewrite Hc.
Qed.

Lemma trimEnd_idem s : trimEnd (trimEnd s) = trimEnd s.
Proof.
  induction s as [|c s IH]; [done|]. cbn [trimEnd].
  destruct (trimEnd s) as [|d t] eqn:Ht.
  - destruct (isWhite c) eqn:Hc; [done|]. cbn. by rewrite Hc.
  - cbn [trimEnd] in *. by rewrite IH.
Qed.

Lemma trim_idem s : trim (trim s) = trim s.
Proof.
  unfold trim.
  rewrite (trimStart_id (trimEnd (trimStart s)))
    by apply trimEnd_head, trimStart_head.
  apply trimEnd_idem.
Qed.

Lemma normalize_idem s : normalize (normalize s) = normalize s.
Proof.
  unfold normalize.
  by rewrite (toLowerCase_trim s), toLowerCase_idem, toLowerCase_trim,
    trim_idem.
Qed.

Lemma normalize_toLowerCase s : normalize (toLowerCase s) = normalize s.
Proof. unfold normalize. by rewrite toLowerCase_idem. Qed.

Lemma normalize_trim s : normalize (trim s) = normalize s.
Proof. unfold normalize. by rewrite <- !toLowerCase_trim, trim_idem. Qed.

(** *** Substrings *)

Lemma app_assoc_s s t u : (s +:+ t) +:+ u = s +:+ t +:+ u.
Proof.
  induction s as [|c s IH]; [done|]. rewrite !app_cons. by f_equal.
Qed.

Lemma app_empty_r s : s +:+ "" = s.
Proof. induction s as [|c s IH]; [done|]. rewrite app_cons. by f_equal. Qed.

Lemma substringOf_refl s : substringOf s s.
Proof. exists "", "". by rewrite app_empty_r. Qed.

Lemma substringOf_trans s t u :
  substringOf s t → substringOf t u → substringOf s u.
Proof.
  intros (p1 & q1 & ->) (p2 & q2 & ->).
  exists (p2 +:+ p1), (q1 +:+ q2). by rewrite !app_assoc_s.
Qed.

Lemma trimStart_suffix s : ∃ pre, s = pre +:+ trimStart s.
Proof.
  induction s as [|c s [pre IH]]; [by exists ""|]. cbn [trimStart].
  destruct (isWhite c); [|by exists ""].
  exists (String c pre). rewrite app_cons. by f_equal.
Qed.

Lemma trimEnd_prefix s : ∃ post, s = trimEnd s +:+ post.
Proof.
  induction s as [|c s [post IH]]; [by exists ""|]. cbn [trimEnd].
  destruct (trimEnd s) as [|d t] eqn:Ht.
  - destruct (isWhite c).
    + by exists (String c s).
    + exists post. rewrite app_cons. by f_equal.
  - exists post. rewrite app_cons. by f_equal.
Qed.

Lemma trim_substring s : substringOf (trim s) s.
Proof.
  destruct (trimStart_suffix s) as [pre Hpre].
  destruct (trimEnd_prefix (trimStart s)) as [post Hpost].
  exists pre, post. unfold trim. by rewrite <- Hpost.
Qed.

Lemma includes_empty_needle s : includes s "" = true.
Proof. by destruct s. Qed.

(** *** The filter, term by term *)

Lemma search_normalize_eq data t t' :
  normalize t' = normalize t → search data t' = search data t.
Proof. unfold search. by intros ->. Qed.

Lemma matchesTerm_weaken needle1 needle2 item :
  substringOf needle1 needle2 →
  matchesTerm needle2 item = true → matchesTerm needle1 item = true.
Proof.
  unfold matchesTerm. destruct (item !! EMAIL_COMPRADOR) as [v|]; [|done].
  rewrite !includes_spec. apply substringOf_trans.
Qed.

Lemma filter_filter_weaker {A} (p q : A → bool) (l : list A) :
  (∀ a, q a = true → p a = true) →
  List.filter q (List.filter p l) = List.filter q l.
Proof.
  intros Hqp. induction l as [|a l IH]; [done|]. cbn [List.filter].
  destruct (p a) eqn:Hp; cbn [List.filter].
  - by rewrite IH.
  - destruct (q a) eqn:Hq; [|done]. by rewrite (Hqp a Hq) in Hp.
Qed.

Lemma matchesTerm_hasEmail term item :
  term ≠ "" → matchesTerm term item = true → hasEmail item.
Proof.
  unfold matchesTerm, hasEmail. intros Hne.
  destruct (item !! EMAIL_COMPRADOR) as [v|]; [|done].
  intros Hinc. exists v. split; [done|]. intros ->.
  by rewrite includes_empty_hay in Hinc.
Qed.

Lemma search_hasEmail data t :
  trim t ≠ "" → Forall hasEmail (search data t).
Proof.
  intros Hne. apply Forall_forall. intros item [_ Hm]%elem_of_search.
  apply (matchesTerm_hasEmail (normalize t)); [|done].
  by rewrite normalize_empty.
Qed.

End NormalFormFacts.

(** ** The query: further properties *)

(** X1. Letter case and surrounding white space of the term do not matter:
    the term, the term lower-cased and the term trimmed give the same result,
    and so do any two terms with the same normal form. *)
Theorem search_ignores_case_and_padding
    (data : list Transaction) (rawTerm : string) :
  search data (toLowerCase rawTerm) = search data rawTerm
  ∧ search data (trim rawTerm) = search data rawTerm
  ∧ search data (normalize rawTerm) = search data rawTerm
  ∧ (∀ other, normalize other = normalize rawTerm →
              search data other = search data rawTerm).
Proof.
  split_and!.
  - apply search_normalize_eq, normalize_toLowerCase.
  - apply search_normalize_eq, normalize_trim.
  - apply search_normalize_eq, normalize_idem.
  - intros other. apply search_normalize_eq.
Qed.

(** X2. A row is found by its own purchaser e-mail, typed in any letter case
    and with any white space around it. *)
Theorem search_finds_stored_email
    (data : list Transaction) (item : Transaction) (v rawTerm : string) :
  item ∈ data →
  item !! EMAIL_COMPRADOR = Some v →
  normalize rawTerm = normalize v →
  item ∈ search data rawTerm.
Proof.
  intros Hin Hv Hnorm. apply elem_of_search. split; [done|].
  unfold matchesTerm. rewrite Hv, Hnorm. apply includes_spec.
  unfold normalize. apply trim_substring.
Qed.

Lemma search_finds_stored_email_witness :
  rowAna ∈ search scenarioData "  ANA@X.COM "
  ∧ rowBia ∈ search scenarioData "Bia@x.com".
Proof.
  split.
  - apply (search_finds_stored_email scenarioData rowAna "ana@x.com"
             "  ANA@X.COM ").
    + constructor.
    + reflexivity.
    + reflexivity.
  - apply (search_finds_stored_email scenarioData rowBia "bia@x.com"
             "Bia@x.com").
    + constructor. constructor.
    + reflexivity.
    + reflexivity.
Defined.

(** X3. Typing more never widens the result: when the normal form of one
    term occurs inside that of another, searching the longer term gives the
    same as searching it within the result of the shorter one, which is a
    subsequence of that result. *)
Theorem longer_term_narrows
    (data : list Transaction) (shorter longer : string) :
  substringOf (normalize shorter) (normalize longer) →
  search data longer = search (search data shorter) longer
  ∧ sublist (search data longer) (search data shorter).
Proof.
  intros Hsub.
  assert (search data longer = search (search data shorter) longer) as Heq.
  { unfold search. symmetry. apply filter_filter_weaker.
    intros item. by apply matchesTerm_weaken. }
  split; [done|]. rewrite Heq. apply search_sublist.
Qed.

Lemma longer_term_narrows_witness :
  search scenarioData "a@x" = [rowAna; rowBia]
  ∧ search scenarioData "na@x.com" = [rowAna]
  ∧ (search scenarioData "na@x.com"
     = search (search scenarioData "a@x") "na@x.com"
     ∧ sublist (search scenarioData "na@x.com") (search scenarioData "a@x")).
Proof.
  split; [reflexivity|split; [reflexivity|]].
  apply (longer_term_narrows scenarioData "a@x" "na@x.com").
  by exists "n", ".com".
Defined.

(** X4. What the guard on blank terms keeps away: with a term that trims to
    the empty string the filter would keep every record that has the
    "E-mail Comprador" property, whatever it holds, and drop only the records
    that lack it. *)
Theorem blank_term_keeps_all_with_email
    (data : list Transaction) (rawTerm : string) :
  trim rawTerm = "" →
  search data rawTerm
  = List.filter (λ item, bool_decide (is_Some (item !! EMAIL_COMPRADOR))) data.
Proof.
  intros Hblank%normalize_empty. unfold search. rewrite Hblank.
  apply List.filter_ext. intros item. unfold matchesTerm.
  destruct (item !! EMAIL_COMPRADOR) as [v|].
  - rewrite includes_empty_needle. symmetry. by apply bool_decide_eq_true_2.
  - symmetry. apply bool_decide_eq_false_2. by intros [? ?].
Qed.

Lemma blank_term_keeps_all_with_email_witness :
  search [rowAna; {[NOME_COMPRADOR := "Caio"]}; rowBia] "   "
  = List.filter (λ item, bool_decide (is_Some (item !! EMAIL_COMPRADOR)))
                [rowAna; {[NOME_COMPRADOR := "Caio"]}; rowBia]
  ∧ search [rowAna; {[NOME_COMPRADOR := "Caio"]}; rowBia] "   "
    = [rowAna; rowBia].
Proof.
  split; [|reflexivity].
  apply (blank_term_keeps_all_with_email
           [rowAna; {[NOME_COMPRADOR := "Caio"]}; rowBia] "   ").
  reflexivity.
Defined.

(** ** The running component: invariants *)

Section InvariantFacts.
Implicit Types (s : State) (rt : Runtime) (tr : list Event) (o : Outcome).

(** A property of the mounted component that every event keeps holds along
    every run. *)
Lemma run_invariant (P : Runtime → Prop) rt tr :
  (∀ rt' e, P rt' → P (step rt' e)) → P rt → P (run rt tr).
Proof.
  intros Hstep. revert rt.
  induction tr as [|e tr IH]; intros rt HP; [done|].
  apply IH. by apply Hstep.
Qed.

Lemma lastSetData_app calls1 calls2 :
  lastSetData (calls1 ++ calls2)
  = match lastSetData calls2 with
    | Some rows => Some rows
    | None => lastSetData calls1
    end.
Proof.
  unfold lastSetData. rewrite foldl_app.
  generalize (foldl (λ acc c, match c with
                              | CallSetData rows => Some rows
                              | _ => acc
                              end) None calls1) as start.
  induction calls2 as [|c calls2 IH] using rev_ind; intros start.
  - by destruct start.
  - rewrite !foldl_snoc. destruct c as [term|rows]; [apply IH|done].
Qed.

Lemma settle_fields captured o s :
  let s' := (fetchData_settle captured o s).1 in
  loading s' = false
  ∧ hasSearched s' = hasSearched s
  ∧ searchTerm s' = searchTerm s.
Proof.
  cbn zeta. destruct o as [e|st stt|rows now|msg]; cbn; [done..| |done].
  unfold fetchData_complete. by destruct (truthy _).
Qed.

Lemma catchMessage_nonempty e : catchMessage e ≠ "".
Proof. destruct e as [[|c message]|]; done. Qed.

Lemma settle_error captured o s :
  error (fetchData_settle captured o s).1
  = if isFailure o
    then Some (match o with
               | Rejected e => catchMessage e
               | NotOk status statusText =>
                   ("Failed to fetch CSV file: " +:+ pretty status
                    +:+ " " +:+ statusText) +:+ "."
               | ParseFailed message => "CSV Parsing Error: " +:+ message
               | ParseComplete _ _ => ""
               end)
    else error s.
Proof.
  destruct o as [e|st stt|rows now|msg]; cbn; [done..| |done].
  unfold fetchData_complete. by destruct (truthy _).
Qed.

Lemma settle_error_nonempty captured o s :
  error s ≠ Some "" → error (fetchData_settle captured o s).1 ≠ Some "".
Proof.
  intros Hs. rewrite settle_error.
  destruct o as [e|st stt|rows now|msg]; cbn [isFailure]; [| | done |].
  - intros [= Hm]. by apply (catchMessage_nonempty e).
  - by intros [=].
  - by intros [=].
Qed.

Lemma handleSearch_fields s :
  let s' := (handleSearch s).1 in
  data s' = data s ∧ loading s' = loading s ∧ error s' = error s
  ∧ lastUpdated s' = lastUpdated s ∧ searchTerm s' = searchTerm s
  ∧ (hasSearched s = true → hasSearched s' = true).
Proof. cbn zeta. unfold handleSearch. by destruct (negb _). Qed.

End InvariantFacts.

(** X5. Whatever the user does and however the fetches end, every record in
    [searchResults] has a purchaser e-mail that is present and not empty; so
    when the cards are shown, their count is the number of results and no
    card has a blank e-mail line. *)
Theorem shown_results_have_email (tr : list Event) :
  Forall hasEmail (searchResults (ui (run mounted tr)))
  ∧ match renderPanel (ui (run mounted tr)) with
    | PanelResults count cards =>
        count = length cards
        ∧ 0 < count
        ∧ Forall (λ card, ∃ v, cardEmail card = Some v ∧ v ≠ "") cards
    | _ => True
    end.
Proof.
  assert (Forall hasEmail (searchResults (ui (run mounted tr)))) as Hinv.
  { apply run_invariant; [|constructor].
    intros rt e Hrt. destruct e as [v| | |o]; cbn [step].
    - done.
    - destruct (loading (ui rt)); [done|]. cbn [orb].
      destruct (truthy (trim (searchTerm (ui rt)))) eqn:Ht; [|done].
      cbn [negb runHandler ui]. rewrite handleSearch_shown, Ht.
      by apply search_hasEmail, truthy_spec.
    - by destruct (loading (ui rt)).
    - destruct (pending rt) as [|t rest]; [done|]. cbn [ui].
      destruct o as [e|st stt|rows now|msg]; cbn; [done..| |done].
      unfold fetchData_complete.
      destruct (truthy (trim t)) eqn:Ht; [|done].
      by apply search_hasEmail, truthy_spec. }
  split; [done|]. unfold renderPanel.
  destruct (hasSearched _); [|done].
  destruct (0 <? length _) eqn:Hlen; [|done].
  split_and!.
  - by rewrite length_fmap.
  - by apply Nat.ltb_lt.
  - apply Forall_fmap. eapply Forall_impl; [exact Hinv|]. by intros item.
Qed.

(** X6. The stored data set is always the rows of the latest successful
    parse, and empty before the first one; the timestamp is missing exactly
    as long as no parse has succeeded, and until then every search result is
    empty. *)
Theorem data_is_latest_parse (tr : list Event) :
  data (ui (run mounted tr)) = default [] (lastSetData (log (run mounted tr)))
  ∧ (lastUpdated (ui (run mounted tr)) = None
     ↔ lastSetData (log (run mounted tr)) = None)
  ∧ (lastUpdated (ui (run mounted tr)) = None →
     data (ui (run mounted tr)) = []
     ∧ searchResults (ui (run mounted tr)) = []).
Proof.
  set (P := λ rt : Runtime,
         data (ui rt) = default [] (lastSetData (log rt))
         ∧ (lastUpdated (ui rt) = None ↔ lastSetData (log rt) = None)
         ∧ (lastUpdated (ui rt) = None → searchResults (ui rt) = [])).
  assert (P (run mounted tr)) as (Hd & Hl & Hr).
  { apply run_invariant; [|by split_and!].
    intros rt e (Hd & Hl & Hr). unfold P.
    destruct e as [v| | |o]; cbn [step].
    - done.
    - destruct (_ || _); [done|]. cbn [runHandler ui log].
      destruct (handleSearch_fields (ui rt)) as (-> & _ & _ & -> & _ & _).
      rewrite lastSetData_app, handleSearch_shown.
      assert (lastSetData (handleSearch (ui rt)).2 = None) as ->.
      { unfold handleSearch. by destruct (negb _). }
      split_and!; [done..|]. intros Hnone.
      destruct (truthy _); [|by apply Hr].
      apply Hl in Hnone. rewrite Hd, Hnone. done.
    - by destruct (loading (ui rt)).
    - destruct (pending rt) as [|t rest]; [done|]. cbn [ui log].
      rewrite lastSetData_app.
      destruct o as [e|st stt|rows now|msg]; cbn; [done..| |done].
      unfold fetchData_complete. by destruct (truthy (trim t)). }
  split_and!; [done..|]. intros Hnone. split; [|by apply Hr].
  apply Hl in Hnone. by rewrite Hd, Hnone.
Qed.

(** X7. No error message the component stores is the empty string, so the
    banner is shown exactly when [error] is not null, with that message. *)
Theorem error_banner_shows_every_error (tr : list Event) :
  error (ui (run mounted tr)) ≠ Some ""
  ∧ renderError (ui (run mounted tr)) = error (ui (run mounted tr)).
Proof.
  assert (error (ui (run mounted tr)) ≠ Some "") as Hne.
  { apply run_invariant; [|done].
    intros rt e Hrt. destruct e as [v| | |o]; cbn [step].
    - done.
    - destruct (_ || _); [done|]. cbn [runHandler ui].
      by destruct (handleSearch_fields (ui rt)) as (_ & _ & -> & _).
    - by destruct (loading (ui rt)).
    - destruct (pending rt) as [|t rest]; [done|]. cbn [ui].
      by apply settle_error_nonempty. }
  split; [done|]. unfold renderError.
  destruct (error _) as [[|c e]|]; done.
Qed.

(** X8. While a fetch is in flight, its response always ends the loading
    state, whatever the outcome: the refresh button is enabled again, no call
    stays pending, a failure shows its message in the banner and a success
    shows none. *)
Theorem response_ends_loading (tr : list Event) (o : Outcome) :
  loading (ui (run mounted tr)) = true →
  let rt' := step (run mounted tr) (Settled o) in
  loading (ui rt') = false
  ∧ refreshDisabled (ui rt') = false
  ∧ pending rt' = []
  ∧ (isFailure o = true → ∃ message, renderError (ui rt') = Some message)
  ∧ (isFailure o = false → renderError (ui rt') = None).
Proof.
  intros Hl rt'.
  destruct (singleFlight_run mounted tr singleFlight_mounted)
    as [(_ & He & t & Ht) | (Hl' & _)]; [|congruence].
  assert (error (ui rt') ≠ Some "") as Hne.
  { subst rt'. cbn [step]. rewrite Ht. cbn [ui].
    apply settle_error_nonempty. by rewrite He. }
  assert (error (ui rt')
          = error (fetchData_settle t o (ui (run mounted tr))).1) as Herr.
  { subst rt'. cbn [step]. by rewrite Ht. }
  assert (loading (ui rt') = false ∧ pending rt' = []) as [Hl' Hp'].
  { subst rt'. cbn [step]. rewrite Ht. cbn [ui pending].
    by destruct (settle_fields t o (ui (run mounted tr))) as (-> & _). }
  rewrite settle_error, He in Herr. unfold refreshDisabled, renderError.
  split_and!; [done..| |].
  - intros Hf. rewrite Hf in Herr. rewrite Herr in Hne |- *.
    match goal with |- context [Some ?m] => destruct m eqn:Hm end;
      [done|eauto].
  - intros Hf. rewrite Hf in Herr. by rewrite Herr.
Qed.

Lemma response_ends_loading_witness :
  let rt' := step (run mounted []) (Settled (NotOk 404 "Not Found")) in
  loading (ui (run mounted [])) = true
  ∧ (loading (ui rt') = false
     ∧ refreshDisabled (ui rt') = false
     ∧ pending rt' = []
     ∧ (isFailure (NotOk 404 "Not Found") = true →
        ∃ message, renderError (ui rt') = Some message)
     ∧ (isFailure (NotOk 404 "Not Found") = false →
        renderError (ui rt') = None))
  ∧ renderError (ui rt') = Some "Failed to fetch CSV file: 404 Not Found.".
Proof.
  split; [reflexivity|split; [|reflexivity]].
  apply (response_ends_loading [] (NotOk 404 "Not Found")). reflexivity.
Defined.

(** X9. Nothing ever resets [hasSearched]: once a search has been submitted,
    the result block stays on screen through every later event, as cards or
    as the no-result notice. *)
Theorem results_panel_stays (rt : Runtime) (tr : list Event) :
  hasSearched (ui rt) = true →
  hasSearched (ui (run rt tr)) = true
  ∧ renderPanel (ui (run rt tr)) ≠ PanelHidden.
Proof.
  intros Hs.
  assert (hasSearched (ui (run rt tr)) = true) as Hrun.
  { apply (run_invariant (λ rt', hasSearched (ui rt') = true)); [|done].
    clear. intros rt e Hs. destruct e as [v| | |o]; cbn [step].
    - done.
    - destruct (_ || _); [done|]. cbn [runHandler ui].
      by apply handleSearch_fields.
    - by destruct (loading (ui rt)).
    - destruct (pending rt) as [|t rest]; [done|]. cbn [ui].
      by destruct (settle_fields t o (ui rt)) as (_ & -> & _). }
  split; [done|]. unfold renderPanel. rewrite Hrun.
  by destruct (0 <? _).
Qed.

Lemma results_panel_stays_witness :
  let later :=
    run scenarioSearching
        [Typed ""; ClickRefresh; Settled (ParseFailed "bad"); Typed "x"] in
  hasSearched (ui scenarioSearching) = true
  ∧ (hasSearched (ui later) = true ∧ renderPanel (ui later) ≠ PanelHidden)
  ∧ renderPanel (ui later)
    = PanelResults 1 [ {| cardReference := "N/A"; cardName := "Ana";
                          cardEmail := Some "ana@x.com" |} ].
Proof.
  split; [reflexivity|split; [|reflexivity]].
  apply (results_panel_stays scenarioSearching
           [Typed ""; ClickRefresh; Settled (ParseFailed "bad"); Typed "x"]).
  reflexivity.
Defined.

(** X10. While a fetch is in flight and until its response arrives, typing,
    submitting and clicking refresh change nothing but the text in the input:
    the data set, the results, the error, the timestamp and the pending call
    stay as they are, and [loading] stays true. *)
Theorem frozen_while_loading (rt : Runtime) (tr : list Event) :
  loading (ui rt) = true →
  forallb (λ e, negb (isSettled e)) tr = true →
  run rt tr
  = {| ui := setSearchTerm (searchTerm (ui (run rt tr))) (ui rt);
       pending := pending rt;
       log := log rt |}
  ∧ loading (ui (run rt tr)) = true.
Proof.
  revert rt. induction tr as [|e tr IH]; intros rt Hl Hno.
  - split; [|done]. by destruct rt as [[] ? ?].
  - cbn [forallb] in Hno. apply andb_true_iff in Hno as [He Hno].
    change (run rt (e :: tr)) with (run (step rt e) tr).
    assert (step rt e
            = {| ui := setSearchTerm (searchTerm (ui (step rt e))) (ui rt);
                 pending := pending rt; log := log rt |}) as Hstep.
    { destruct e as [v| | |o]; cbn [step]; [done| | |done].
      - rewrite Hl. by destruct rt as [[] ? ?].
      - rewrite Hl. by destruct rt as [[] ? ?]. }
    assert (loading (ui (step rt e)) = true) as Hl'.
    { by rewrite Hstep. }
    destruct (IH (step rt e) Hl' Hno) as [Hrun Hlrun].
    split; [|done]. rewrite Hrun at 1. by rewrite Hstep.
Qed.

Lemma frozen_while_loading_witness :
  let tr := [Typed "bia@x.com"; SubmitForm; ClickRefresh; Typed "ana"] in
  let waiting := step scenarioSearching ClickRefresh in
  loading (ui waiting) = true
  ∧ (run waiting tr
     = {| ui := setSearchTerm (searchTerm (ui (run waiting tr))) (ui waiting);
          pending := pending waiting;
          log := log waiting |}
     ∧ loading (ui (run waiting tr)) = true)
  ∧ searchResults (ui (run waiting tr)) = [rowAna]
  ∧ searchTerm (ui (run waiting tr)) = "ana".
Proof.
  split; [reflexivity|split; [|split; reflexivity]].
  apply (frozen_while_loading (step scenarioSearching ClickRefresh)
           [Typed "bia@x.com"; SubmitForm; ClickRefresh; Typed "ana"]);
    reflexivity.
Defined.

(** X11. The data set is replaced at most once per [fetchData] call: along
    any events, the replacements made plus the calls still pending never
    exceed what they were at the start plus the refresh clicks since; from the
    mount on, that is one more than the number of clicks. *)
Theorem replacements_bounded_by_fetches (rt : Runtime) (tr : list Event) :
  replacements (log (run rt tr)) + length (pending (run rt tr))
  ≤ replacements (log rt) + length (pending rt)
    + length (List.filter isClickRefresh tr)
  ∧ replacements (log (run mounted tr))
    ≤ 1 + length (List.filter isClickRefresh tr).
Proof.
  assert (∀ rt',
    replacements (log (run rt' tr)) + length (pending (run rt' tr))
    ≤ replacements (log rt') + length (pending rt')
      + length (List.filter isClickRefresh tr)) as Hgen.
  { induction tr as [|e tr IH]; intros rt'; [cbn; lia|].
    change (run rt' (e :: tr)) with (run (step rt' e) tr).
    etrans; [apply IH|].
    destruct e as [v| | |o];
      cbn [step List.filter isClickRefresh length log pending].
    - lia.
    - destruct (_ || _); [lia|]. cbn [runHandler log pending].
      rewrite replacements_app, handleSearch_replacements. lia.
    - destruct (loading (ui rt')); [lia|].
      cbn [callFetchData log pending]. rewrite length_app. cbn. lia.
    - destruct (pending rt') as [|t rest] eqn:Hp; [rewrite Hp; lia|].
      cbn [log pending length]. rewrite replacements_app.
      pose proof (settle_replacements t o (ui rt')). lia. }
  split; [apply Hgen|].
  pose proof (Hgen mounted) as Hm. cbn in Hm. lia.
Qed.

(** ** The probe script *)

Section ProbeFacts.
Import CheckCsv.
Implicit Types (needle text s t : string) (skip : nat).

Lemma startsWith_length text needle :
  startsWith text needle = true → String.length needle ≤ String.length text.
Proof.
  revert text. induction needle as [|a needle IH]; intros text; [cbn; lia|].
  destruct text as [|b text]; [done|]. cbn [startsWith String.length].
  intros [_ Hrest]%andb_true_iff. apply IH in Hrest. lia.
Qed.

Lemma matchCount_zero needle text :
  needle ≠ "" →
  matchCount needle 0 text = 0 ↔ includes text needle = false.
Proof.
  intros Hne. induction text as [|c text IH].
  - by rewrite includes_empty_hay.
  - cbn [matchCount includes].
    destruct (startsWith (String c text) needle); [done|].
    by rewrite orb_false_l.
Qed.

Lemma matchCount_fits needle skip text :
  needle ≠ "" →
  skip ≤ String.length text →
  String.length needle * matchCount needle skip text + skip
  ≤ String.length text.
Proof.
  intros Hne. revert skip.
  induction text as [|c text IH]; intros skip Hskip.
  - cbn in *. lia.
  - cbn [String.length] in *. destruct skip as [|skip]; cbn [matchCount].
    + destruct (startsWith (String c text) needle) eqn:Hs.
      * apply startsWith_length in Hs. cbn [String.length] in Hs.
        assert (0 < String.length needle) by (destruct needle; [done|cbn; lia]).
        pose proof (IH (String.length needle - 1)) as Hrec.
        rewrite Nat.mul_succ_r. lia.
      * pose proof (IH 0). lia.
    + pose proof (IH skip). lia.
Qed.

Lemma toLowerCase_app s t :
  toLowerCase (s +:+ t) = toLowerCase s +:+ toLowerCase t.
Proof.
  induction s as [|c s IH]; [done|].
  rewrite app_cons. cbn [toLowerCase]. by rewrite IH, app_cons.
Qed.

Lemma substringOf_toLowerCase s t :
  substringOf s t → substringOf (toLowerCase s) (toLowerCase t).
Proof.
  intros (pre & post & ->). exists (toLowerCase pre), (toLowerCase post).
  by rewrite !toLowerCase_app.
Qed.

End ProbeFacts.

(** X12. The probe reports zero matches exactly when the text does not
    contain the address. *)
Theorem probe_zero_iff_absent (text : string) :
  CheckCsv.check (Some text) = CheckCsv.Counts (String.length text) 0
  ↔ ¬ substringOf CheckCsv.ADDRESS text.
Proof.
  rewrite <- includes_spec, not_true_iff_false.
  rewrite <- (matchCount_zero CheckCsv.ADDRESS text) by done.
  cbn [CheckCsv.check]. split; [by intros [= ->]|by intros ->].
Qed.

(** X13. The two numbers the probe reports are consistent: the matches do
    not overlap, so nineteen code units per match fit into the total
    length. *)
Theorem probe_matches_fit (text : string) :
  ∃ matches,
    CheckCsv.check (Some text) = CheckCsv.Counts (String.length text) matches
    ∧ 19 * matches ≤ String.length text.
Proof.
  eexists. split; [done|].
  pose proof (matchCount_fits CheckCsv.ADDRESS 0 text) as Hfit.
  cbn [String.length CheckCsv.ADDRESS] in Hfit.
  change (String.length "raysant29@gmail.com") with 19 in Hfit.
  rewrite Nat.add_0_r in Hfit. apply Hfit; [done|lia].
Qed.

(** X14. The probe is the stricter test: when its pattern matches inside the
    purchaser e-mail of a row, the search for the address in the component
    returns that row. *)
Theorem probe_match_is_found_by_search
    (data : list Transaction) (item : Transaction) (v : string) :
  item ∈ data →
  item !! EMAIL_COMPRADOR = Some v →
  0 < CheckCsv.matchCount CheckCsv.ADDRESS 0 v →
  item ∈ search data CheckCsv.ADDRESS.
Proof.
  intros Hin Hv Hcount. apply elem_of_search. split; [done|].
  unfold matchesTerm. rewrite Hv. apply includes_spec.
  change (normalize CheckCsv.ADDRESS) with (toLowerCase CheckCsv.ADDRESS).
  apply substringOf_toLowerCase, includes_spec.
  destruct (includes v CheckCsv.ADDRESS) eqn:Hinc; [done|].
  apply matchCount_zero in Hinc; [lia|done].
Qed.

Lemma probe_match_is_found_by_search_witness :
  let item : Transaction :=
    {[ EMAIL_COMPRADOR := "Ray <raysant29@gmail.com>" ]} in
  item ∈ search [rowAna; item] CheckCsv.ADDRESS.
Proof.
  apply (probe_match_is_found_by_search
           [rowAna; {[ EMAIL_COMPRADOR := "Ray <raysant29@gmail.com>" ]}]
           {[ EMAIL_COMPRADOR := "Ray <raysant29@gmail.com>" ]}
           "Ray <raysant29@gmail.com>").
  - constructor. constructor.
  - reflexivity.
  - vm_compute. lia.
Defined.
